(** * OpenPNM capillary-pressure models

    A shallow embedding of [OpenPNM/Physics/models/capillary_pressure.py]
    and the properties its specification states about it.

    Conventions of the embedding.
    - A numpy [float64] is a value of [float]: a real number, or one of the
      IEEE specials (the two infinities and NaN).  Finite arithmetic is
      exact: rounding, overflow and the sign of zero are not modelled.
    - A one-dimensional numpy array is a [list float]; index arrays are
      [list nat].
    - The objects handed to a model (network, phase, physics) are records
      holding a dictionary from property keys to arrays.  A model runs in a
      state-and-exception monad over these objects, so that an in-place
      update of a stored array is visible after the call. *)

From Stdlib Require Import Reals Lra Lia Ascii.
From stdpp Require Import gmap strings list.

Open Scope R_scope.

(* ===================================================================== *)
(** ** Floating-point values *)
(* ===================================================================== *)

Inductive float : Type :=
  | Num (x : R)
  | PInf
  | NInf
  | NaN.

#[global] Instance R_eq_dec : EqDecision R := Req_dec_T.
#[global] Instance Rlt_decision (x y : R) : Decision (x < y) := Rlt_dec x y.
#[global] Instance Rle_decision (x y : R) : Decision (x <= y) := Rle_dec x y.
#[global] Instance float_eq_dec : EqDecision float.
Proof. solve_decision. Defined.

(** The infinity carrying the sign of [x]; NaN when [x] is zero
    (as in [0 * inf] and [0 / 0]). *)
Definition sign_inf (x : R) : float :=
  if decide (0 < x) then PInf else if decide (x < 0) then NInf else NaN.

Definition fneg (a : float) : float :=
  match a with
  | Num x => Num (- x)
  | PInf => NInf
  | NInf => PInf
  | NaN => NaN
  end.

Definition fadd (a b : float) : float :=
  match a, b with
  | Num x, Num y => Num (x + y)
  | NaN, _ | _, NaN => NaN
  | PInf, NInf | NInf, PInf => NaN
  | PInf, _ | _, PInf => PInf
  | NInf, _ | _, NInf => NInf
  end.

Definition fsub (a b : float) : float := fadd a (fneg b).

Definition fmul (a b : float) : float :=
  match a, b with
  | Num x, Num y => Num (x * y)
  | NaN, _ | _, NaN => NaN
  | Num x, PInf | PInf, Num x => sign_inf x
  | Num x, NInf | NInf, Num x => sign_inf (- x)
  | PInf, PInf | NInf, NInf => PInf
  | PInf, NInf | NInf, PInf => NInf
  end.

Definition fdiv (a b : float) : float :=
  match a, b with
  | Num x, Num y => if decide (y = 0) then sign_inf x else Num (x / y)
  | Num _, PInf | Num _, NInf => Num 0
  | PInf, Num y => if decide (y < 0) then NInf else PInf
  | NInf, Num y => if decide (y < 0) then PInf else NInf
  | _, _ => NaN
  end.

Definition fabs (a : float) : float :=
  match a with
  | Num x => Num (Rabs x)
  | PInf | NInf => PInf
  | NaN => NaN
  end.

Definition fcos (a : float) : float :=
  match a with Num x => Num (cos x) | _ => NaN end.

Definition fsin (a : float) : float :=
  match a with Num x => Num (sin x) | _ => NaN end.

Definition farcsin (a : float) : float :=
  match a with
  | Num x => if decide (-1 <= x <= 1) then Num (asin x) else NaN
  | _ => NaN
  end.

(** [scipy.sqrt]: the square root of a non-negative number.  The source
    calls it through scipy's alias of [numpy.lib.scimath.sqrt], which
    answers a negative argument with a complex number; the embedding has no
    complex values and writes NaN there, so what [cuboid] computes for a
    negative radicand is not modelled beyond its shape. *)
Definition fsqrt (a : float) : float :=
  match a with
  | Num x => if decide (0 <= x) then Num (sqrt x) else NaN
  | PInf => PInf
  | _ => NaN
  end.

Definition fexp (a : float) : float :=
  match a with
  | Num x => Num (exp x)
  | PInf => PInf
  | NInf => Num 0
  | NaN => NaN
  end.

(** [numpy.radians]: multiplication by pi/180. *)
Definition fradians (a : float) : float := fmul a (Num (PI / 180)).

(** [a == b] on floats: NaN equals nothing. *)
Definition feqb (a b : float) : bool :=
  match a, b with
  | NaN, _ | _, NaN => false
  | _, _ => bool_decide (a = b)
  end.

(** [a < b] on floats: false as soon as one side is NaN. *)
Definition fltb (a b : float) : bool :=
  match a, b with
  | Num x, Num y => bool_decide (x < y)
  | NInf, Num _ | NInf, PInf | Num _, PInf => true
  | _, _ => false
  end.

Definition isnan (a : float) : bool :=
  match a with NaN => true | _ => false end.

Definition isinf (a : float) : bool :=
  match a with PInf | NInf => true | _ => false end.

(** numpy's [maximum] and [minimum] propagate NaN. *)
Definition fmax2 (a b : float) : float :=
  if isnan a then a else if isnan b then b else if fltb a b then b else a.

Definition fmin2 (a b : float) : float :=
  if isnan a then a else if isnan b then b else if fltb b a then b else a.

(* ===================================================================== *)
(** ** Exceptions and arrays *)
(* ===================================================================== *)

Inductive exn : Type :=
  | KeyError (key : string)
  | IndexError
  | ValueError
  | TypeError.

Inductive result (A : Type) : Type :=
  | Ok (a : A)
  | Raise (e : exn).
Arguments Ok {A} a.
Arguments Raise {A} e.

Definition rbind {A B} (c : result A) (k : A -> result B) : result B :=
  match c with Ok a => k a | Raise e => Raise e end.

Declare Scope result_scope.
Delimit Scope result_scope with res.
Notation "'let?' x := c 'in' k" := (rbind c (fun x => k))
  (at level 10, x pattern, c at level 100, k at level 200) : result_scope.

Abbreviation ndarray := (list float) (only parsing).

(** Elementwise binary operation of two arrays, with numpy's broadcasting of
    a length-one operand; other length mismatches raise [ValueError]. *)
Definition broadcast (f : float -> float -> float) (a b : ndarray) : result ndarray :=
  if decide (length a = length b) then Ok (zip_with f a b)
  else match a, b with
       | [x], _ => Ok (fmap (f x) b)
       | _, [y] => Ok (fmap (fun x => f x y) a)
       | _, _ => Raise ValueError
       end.

(** [a[idx]] with an integer index array (a copy, never a view). *)
Fixpoint take_indices (a : ndarray) (idx : list nat) : result ndarray :=
  match idx with
  | [] => Ok []
  | i :: idx' =>
      match a !! i with
      | None => Raise IndexError
      | Some x =>
          match take_indices a idx' with
          | Ok l => Ok (x :: l)
          | Raise e => Raise e
          end
      end
  end.

(** [a[mask]] with a boolean mask of the same length. *)
Definition mask_select (a : ndarray) (mask : list bool) : result ndarray :=
  if decide (length a = length mask)
  then Ok (omap (fun p : float * bool => if p.2 then Some p.1 else None)
                (zip a mask))
  else Raise IndexError.

(** [a.max()], [a.min()], [a.mean()]: the first two raise on an empty
    array, the mean of an empty array is NaN. *)
Definition array_max (a : ndarray) : result float :=
  match a with
  | [] => Raise ValueError
  | x :: l => Ok (foldl fmax2 x l)
  end.

Definition array_min (a : ndarray) : result float :=
  match a with
  | [] => Raise ValueError
  | x :: l => Ok (foldl fmin2 x l)
  end.

Definition array_sum (a : ndarray) : float := foldl fadd (Num 0) a.

Definition array_mean (a : ndarray) : result float :=
  Ok (fdiv (array_sum a) (Num (INR (length a)))).

(** [~a] on a float array: numpy defines bitwise inversion on integer and
    boolean arrays only. *)
Definition invert (a : ndarray) : result ndarray := Raise TypeError.

(** [a[a == x] = v], on the array itself. *)
Definition assign_where_eq (a : ndarray) (x v : float) : ndarray :=
  fmap (fun y => if feqb y x then v else y) a.

(* ===================================================================== *)
(** ** Network, phase and physics objects *)
(* ===================================================================== *)

Abbreviation vec3 := (float * float * float)%type (only parsing).

Record Network : Type := mkNetwork {
  Np : nat;                          (* number of pores *)
  conns : list (nat * nat);          (* 'throat.conns' *)
  coords : list vec3;                (* 'pore.coords' *)
  net_props : gmap string ndarray      (* the one-dimensional property arrays *)
}.

Record Phase : Type := mkPhase {
  phase_props : gmap string ndarray;
  pores : string -> list nat;        (* phase.pores(label) *)
  throats : string -> list nat       (* phase.throats(label) *)
}.

Record Physics : Type := mkPhysics {
  name : string;
  phys_props : gmap string ndarray
}.

Record world : Type := mkWorld {
  network : Network;
  phase : Phase;
  physics : Physics
}.

Definition Nt (n : Network) : nat := length (conns n).

(** The monad of a model call: the objects are threaded through, and they
    survive an exception. *)
Definition M (A : Type) : Type := world -> result A * world.

Definition ret {A} (a : A) : M A := fun w => (Ok a, w).

Definition bind {A B} (c : M A) (k : A -> M B) : M B :=
  fun w => match c w with
           | (Ok a, w') => k a w'
           | (Raise e, w') => (Raise e, w')
           end.

Definition lift {A} (c : result A) : M A := fun w => (c, w).

Declare Scope model_scope.
Delimit Scope model_scope with model.
Notation "'let*' x := c 'in' k" := (bind c (fun x => k))
  (at level 10, x pattern, c at level 100, k at level 200) : model_scope.

Definition getitem (d : gmap string ndarray) (key : string) : result ndarray :=
  match d !! key with
  | Some a => Ok a
  | None => Raise (KeyError key)
  end.

Definition network_getitem (key : string) : M ndarray :=
  fun w => (getitem (net_props (network w)) key, w).

Definition phase_getitem (key : string) : M ndarray :=
  fun w => (getitem (phase_props (phase w)) key, w).

Definition physics_getitem (key : string) : M ndarray :=
  fun w => (getitem (phys_props (physics w)) key, w).

(** Storing into the array object held by the phase under [key]. *)
Definition phase_store (key : string) (a : ndarray) : M unit :=
  fun w => (Ok tt,
            mkWorld (network w)
                    (mkPhase (<[key := a]> (phase_props (phase w)))
                             (pores (phase w)) (throats (phase w)))
                    (physics w)).

Definition physics_name : M string := fun w => (Ok (name (physics w)), w).
Definition phase_pores (label : string) : M (list nat) :=
  fun w => (Ok (pores (phase w) label), w).
Definition phase_throats (label : string) : M (list nat) :=
  fun w => (Ok (throats (phase w) label), w).
Definition network_Np : M nat := fun w => (Ok (Np (network w)), w).
Definition get_network : M Network := fun w => (Ok (network w), w).

(** A Python variable bound to an array: the very object the phase stores
    under a key, or a temporary that only the running model refers to. *)
Inductive var : Type :=
  | Alias (key : string)
  | Temp (a : ndarray).

Definition read (v : var) : M ndarray :=
  match v with
  | Alias key => phase_getitem key
  | Temp a => ret a
  end.

(** [v *= c]: numpy multiplies in place, in the object [v] is bound to. *)
Definition imul (v : var) (c : float) : M var :=
  match v with
  | Alias key =>
      (let* a := phase_getitem key in
       let* _ := phase_store key (fmap (fun x => fmul x c) a) in
       ret (Alias key))%model
  | Temp a => ret (Temp (fmap (fun x => fmul x c) a))
  end.

(** [key.split('.')[0]] *)
Fixpoint split_head (key : string) : string :=
  match key with
  | EmptyString => EmptyString
  | String c rest =>
      if Ascii.eqb c "."%char then EmptyString else String c (split_head rest)
  end.

(** [where(cond)[0]]: the positions at which the condition holds. *)
Fixpoint where_from {A} (p : A -> bool) (l : list A) (i : nat) : list nat :=
  match l with
  | [] => []
  | x :: l' =>
      if p x then i :: where_from p l' (S i) else where_from p l' (S i)
  end.

Definition where_ {A} (p : A -> bool) (l : list A) : list nat :=
  where_from p l 0.

(** [a[idx] = x] with an integer index array: [x] has one value per index,
    or a single value broadcast to all of them. *)
Fixpoint assign_seq (a : ndarray) (idx : list nat) (x : ndarray) : result ndarray :=
  match idx, x with
  | [], _ => Ok a
  | i :: idx', v :: x' =>
      if decide (i < length a)%nat then assign_seq (<[i := v]> a) idx' x'
      else Raise IndexError
  | _ :: _, [] => Raise ValueError
  end.

Definition assign_indices (a : ndarray) (idx : list nat) (x : ndarray)
  : result ndarray :=
  if decide (length idx = length x) then assign_seq a idx x
  else match x with
       | [v] => assign_seq a idx (replicate (length idx) v)
       | _ => Raise ValueError
       end.

(** A [for] loop over a list, threading the loop-carried value. *)
Fixpoint for_each {A S} (l : list A) (body : A -> S -> M S) (s : S) : M S :=
  match l with
  | [] => ret s
  | x :: l' => bind (body x s) (for_each l' body)
  end.

(** Mapping a function that may raise, left to right. *)
Fixpoint map_result {A B} (f : A -> result B) (l : list A) : result (list B) :=
  match l with
  | [] => Ok []
  | x :: l' =>
      match f x with
      | Raise e => Raise e
      | Ok y =>
          match map_result f l' with
          | Ok ys => Ok (y :: ys)
          | Raise e => Raise e
          end
      end
  end.

(* ===================================================================== *)
(** ** Accessors of the surrounding framework *)
(* ===================================================================== *)

(** Modelled from the spec: [phase.interpolate_data] is not part of the
    sources at hand.  "If a property is pore-scoped but the target entity is
    throat, interpolate: throat value = reduction (mean, by default) of the
    two endpoint pore values."  The result is a new array. *)
Definition interpolate_data (data : ndarray) : M ndarray :=
  fun w =>
    (if decide (length data = Np (network w))
     then map_result (fun ab : nat * nat =>
                  match data !! ab.1, data !! ab.2 with
                  | Some x, Some y => Ok (fdiv (fadd x y) (Num 2))
                  | _, _ => Raise IndexError
                  end) (conns (network w))
     else Raise ValueError, w).

(** Modelled from the spec: [network.find_neighbor_throats] is not part of
    the sources at hand.  "Given a pore index or set, return incident throat
    indices": the throats one of whose two endpoints is the pore. *)
Definition find_neighbor_throats (net : Network) (i : nat) : list nat :=
  where_ (fun ab : nat * nat => (ab.1 =? i)%nat || (ab.2 =? i)%nat) (conns net).

(** One throat of the cluster labelling: when both endpoints are labelled,
    the cluster of the second is renamed to that of the first. *)
Definition merge_labels (labels : list Z) (ab : nat * nat) : list Z :=
  match labels !! ab.1, labels !! ab.2 with
  | Some la, Some lb =>
      if (la =? -1)%Z || (lb =? -1)%Z then labels
      else fmap (fun l => if (l =? lb)%Z then la else l) labels
  | _, _ => labels
  end.

(** Modelled from the spec: [network.find_clusters2] is not part of the
    sources at hand.  "Output: integer label array over all Np pores; pores
    failing the occupancy predicate get the sentinel label (-1); pores in the
    same connected subgraph share a label", the subgraph being "induced by
    throats whose both endpoints satisfy the occupancy predicate". *)
Definition find_clusters2 (net : Network) (mask : list bool) : result (list Z) :=
  if decide (length mask = Np net)
  then Ok (foldl merge_labels
                 (imap (fun i (b : bool) => if b then Z.of_nat i else (-1)%Z) mask)
                 (conns net))
  else Raise ValueError.

(** Python truthiness of an array entry. *)
Definition truthy (x : float) : bool := negb (feqb x (Num 0)).

(** [numpy.unique]: the sorted distinct values. *)
Fixpoint insert_unique (x : Z) (l : list Z) : list Z :=
  match l with
  | [] => [x]
  | y :: l' =>
      if (x <? y)%Z then x :: l
      else if (x =? y)%Z then l
      else y :: insert_unique x l'
  end.

Definition unique (l : list Z) : list Z := foldr insert_unique [] l.

(* ===================================================================== *)
(** ** The module [capillary_pressure] *)
(* ===================================================================== *)

Open Scope string_scope.

Definition _get_key_props (diameter surface_tension contact_angle : string)
  : M (string * var * var) :=
  (let entity := split_head diameter in
   let* sigma :=
     if String.eqb (split_head surface_tension) "pore"
        && String.eqb (split_head diameter) "throat"
     then let* sigma := phase_getitem surface_tension in
          let* sigma := interpolate_data sigma in
          ret (Temp sigma)
     else let* _ := phase_getitem surface_tension in
          ret (Alias surface_tension) in
   let* theta :=
     if String.eqb (split_head contact_angle) "pore"
        && String.eqb (split_head diameter) "throat"
     then let* theta := phase_getitem contact_angle in
          let* theta := interpolate_data theta in
          ret (Temp theta)
     else let* _ := phase_getitem contact_angle in
          ret (Alias contact_angle) in
   ret (entity, sigma, theta))%model.

Definition _handle_zeros (array : ndarray) (mode : string) (value : option float)
  : result ndarray :=
  (let? value :=
     match value with
     | None =>
         if String.eqb mode "max" then
           let? m := array_max array in Ok (Some m)
         else if String.eqb mode "min" then
           let? inv := invert array in
           let? sel := mask_select array (fmap (fun x => feqb x (Num 0)) inv) in
           let? m := array_min sel in Ok (Some m)
         else if String.eqb mode "mean" then
           let? inv := invert array in
           let? sel := mask_select array (fmap (fun x => feqb x (Num 0)) inv) in
           let? m := array_mean sel in Ok (Some m)
         else Ok None
     | Some v => Ok (Some v)
     end in
   (* a float array stores None as NaN *)
   Ok (assign_where_eq array (Num 0) (default NaN value)))%res.

(** The slice to the indices of the physics, shared by the models. *)
Definition scope_indices (entity : string) : M (list nat) :=
  (let* physics_name := physics_name in
   if String.eqb entity "throat" then phase_throats physics_name
   else phase_pores physics_name)%model.

(** [value[absolute(value) == inf] = 0] *)
Definition clamp_inf (value : ndarray) : ndarray :=
  fmap (fun v => if feqb (fabs v) PInf then Num 0 else v) value.

Definition washburn (surface_tension contact_angle diameter : string) : M ndarray :=
  (let* (entity, sigma, theta) :=
     _get_key_props diameter surface_tension contact_angle in
   let* d := network_getitem diameter in
   let r := fmap (fun x => fdiv x (Num 2)) d in
   let* r := lift (_handle_zeros r "max" None) in
   let* sigma := read sigma in
   let* theta := read theta in
   let* value := lift (broadcast fmul (fmap (fmul (Num (-2))) sigma)
                                 (fmap (fun t => fcos (fradians t)) theta)) in
   let* value := lift (broadcast fdiv value r) in
   let* idx := scope_indices entity in
   let* value := lift (take_indices value idx) in
   ret (clamp_inf value))%model.

Definition purcell (r_toroid : float)
    (surface_tension contact_angle diameter : string) : M ndarray :=
  (let* (entity, sigma, theta) :=
     _get_key_props diameter surface_tension contact_angle in
   let* d := network_getitem diameter in
   let r := fmap (fun x => fdiv x (Num 2)) d in
   let* r := lift (_handle_zeros r "max" None) in
   let R := r_toroid in
   let* sigma := read sigma in
   let* theta := read theta in
   (* alpha = theta - 180 + arcsin(sin(radians(theta)/(1+r/R))) *)
   let* q := lift (broadcast fdiv (fmap fradians theta)
                     (fmap (fun x => fadd (Num 1) (fdiv x R)) r)) in
   let* alpha := lift (broadcast fadd (fmap (fun t => fsub t (Num 180)) theta)
                         (fmap (fun x => farcsin (fsin x)) q)) in
   (* value = (-2*sigma/r) *
              (cos(radians(theta - alpha)) / (1 + R/r*(1 - cos(radians(alpha))))) *)
   let* lhs := lift (broadcast fdiv (fmap (fmul (Num (-2))) sigma) r) in
   let* ta := lift (broadcast fsub theta alpha) in
   let* Rr := lift (broadcast fmul (fmap (fun x => fdiv R x) r)
                      (fmap (fun a => fsub (Num 1) (fcos (fradians a))) alpha)) in
   let* rhs := lift (broadcast fdiv (fmap (fun x => fcos (fradians x)) ta)
                       (fmap (fadd (Num 1)) Rr)) in
   let* value := lift (broadcast fmul lhs rhs) in
   let* idx := scope_indices entity in
   lift (take_indices value idx))%model.

(** The shape factor of [cuboid], elementwise in the contact angle (radians):
    (theta+cos(theta)**2-pi/4-sin(theta)*cos(theta)) /
    (cos(theta)-sqrt(pi/4-theta+sin(theta)*cos(theta))) *)
Definition cuboid_Theta (theta : float) : float :=
  fdiv
    (fsub (fsub (fadd theta (fmul (fcos theta) (fcos theta)))
                (Num (PI / 4)))
          (fmul (fsin theta) (fcos theta)))
    (fsub (fcos theta)
          (fsqrt (fadd (fsub (Num (PI / 4)) theta)
                       (fmul (fsin theta) (fcos theta))))).

Definition cuboid (surface_tension contact_angle diameter : string) : M ndarray :=
  (let* (entity, sigma, theta) :=
     _get_key_props diameter surface_tension contact_angle in
   (* theta *= 2*pi/360 *)
   let* theta := imul theta (Num (2 * PI / 360)) in
   let* d := network_getitem diameter in
   let rad := fmap (fun x => fdiv x (Num 2)) d in
   let* rad := lift (_handle_zeros rad "max" None) in
   let* theta := read theta in
   let Theta := fmap cuboid_Theta theta in
   let* sigma := read sigma in
   let* value := lift (broadcast fdiv sigma rad) in
   let* value := lift (broadcast fmul value Theta) in
   let* idx := scope_indices entity in
   let* value := lift (take_indices value idx) in
   ret (clamp_inf value))%model.

(** The reductions [from_throat] chooses from. *)
Definition functions : gmap string (ndarray -> result float) :=
  <["min" := array_min]> (<["max" := array_max]> (<["mean" := array_mean]> ∅)).

Definition from_throat (capillary_pressure operator : string) : M ndarray :=
  (let* np := network_Np in
   let value := replicate np (Num 0) in
   let operator :=
     match functions !! operator with
     | None => "mean"
     | Some _ => operator
     end in
   for_each (seq 0 np)
     (fun i value =>
        let* net := get_network in
        let ts := find_neighbor_throats net i in
        let* pc := physics_getitem capillary_pressure in
        let* sel := lift (take_indices pc ts) in
        let* x := lift (match functions !! operator with
                        | Some f => f sel
                        | None => Raise (KeyError operator)
                        end) in
        ret (<[i := x]> value))
     value)%model.

Definition kelvin (diameter temperature vapor_pressure molecular_weight
                   density surface_tension : string) : M ndarray :=
  (let* T := phase_getitem temperature in
   let* P0 := phase_getitem vapor_pressure in
   let* Mw := phase_getitem molecular_weight in
   let* rho := phase_getitem density in
   let* gamma := phase_getitem surface_tension in
   let* d := network_getitem diameter in
   let r := fmap (fun x => fdiv x (Num 2)) d in
   let* r := lift (_handle_zeros r "max" None) in
   let R := Num (8314 / 1000) in
   (* value = P0*exp((M*2*gamma)/(rho*R*T*r)) *)
   let* num := lift (broadcast fmul (fmap (fun m => fmul m (Num 2)) Mw) gamma) in
   let* den := lift (broadcast fmul (fmap (fun x => fmul x R) rho) T) in
   let* den := lift (broadcast fmul den r) in
   let* e := lift (broadcast fdiv num den) in
   let* value := lift (broadcast fmul P0 (fmap fexp e)) in
   ret value)%model.

(** Rows of the coordinate array and the operations [static_pressure]
    applies to them. *)
Definition vec3_to_list (v : vec3) : list float := [v.1.1; v.1.2; v.2].

Definition vec3_zip (f : float -> float -> float) (u v : vec3) : vec3 :=
  (f u.1.1 v.1.1, f u.1.2 v.1.2, f u.2 v.2).

(** [coords[Ps, :]] *)
Fixpoint take_rows (c : list vec3) (idx : list nat) : result (list vec3) :=
  match idx with
  | [] => Ok []
  | i :: idx' =>
      match c !! i with
      | None => Raise IndexError
      | Some x =>
          match take_rows c idx' with
          | Ok l => Ok (x :: l)
          | Raise e => Raise e
          end
      end
  end.

(** [amax(rows, axis=0)]: the maximum of every column. *)
Definition amax0 (rows : list vec3) : result vec3 :=
  match rows with
  | [] => Raise ValueError
  | x :: l => Ok (foldl (vec3_zip fmax2) x l)
  end.

(** [reshape(P[:, cols], -1)]: the chosen columns, row after row. *)
Definition select_columns (rows : list vec3) (cols : list nat) : ndarray :=
  flat_map (fun row => omap (fun c => vec3_to_list row !! c) cols) rows.

(** The body of the loop of [static_pressure]: the pores of one cluster. *)
Definition static_pressure_cluster (net : Network) (rho : ndarray) (g : vec3)
    (clusters : list Z) (cluster : Z) (static_pressure : ndarray) : M ndarray :=
  (let Ps := where_ (fun c => (c =? cluster)%Z) clusters in
   let* rows := lift (take_rows (coords net) Ps) in
   let* tops := lift (amax0 rows) in
   let h := fmap (fun row => vec3_zip fsub tops row) rows in
   let P_temp := fmap (fun row => vec3_zip fmul g row) h in
   let cols := where_ (fun x => fltb (Num 0) x) (vec3_to_list g) in
   let P_temp := select_columns P_temp cols in
   let* rhoPs := lift (take_indices rho Ps) in
   let* x := lift (broadcast fmul P_temp rhoPs) in
   lift (assign_indices static_pressure Ps x))%model.

Definition static_pressure (pore_density pore_occupancy : string) (g : vec3)
  : M ndarray :=
  (let* np := network_Np in
   let static_pressure := replicate np (Num 0) in
   let* rho := phase_getitem pore_density in
   let* occupancy := phase_getitem pore_occupancy in
   let* net := get_network in
   let* clusters := lift (find_clusters2 net (fmap truthy occupancy)) in
   let cluster_nums := unique clusters in
   let cluster_nums :=
     List.filter (fun c => negb (c =? -1)%Z) cluster_nums in
   for_each cluster_nums (static_pressure_cluster net rho g clusters)
            static_pressure)%model.

Close Scope string_scope.

(* ===================================================================== *)
(** ** Notions used to state the properties *)
(* ===================================================================== *)

(** A model call leaves the network, the phase and the physics as they
    were, whatever it returns or raises. *)
Definition preserves {A} (c : M A) : Prop := forall w, (c w).2 = w.

(** The interfacial property [key] resolved to the entity of [diameter]:
    interpolated when it is stored on pores and the diameter on throats,
    the stored array otherwise. *)
Definition resolved (key diameter : string) (w : world) : result ndarray :=
  if String.eqb (split_head key) "pore"
     && String.eqb (split_head diameter) "throat"
  then (bind (phase_getitem key) interpolate_data w).1
  else getitem (phase_props (phase w)) key.

(** The indices the physics governs, for the entity the model works on. *)
Definition scope_of (entity : string) (w : world) : list nat :=
  if String.eqb entity "throat" then throats (phase w) (name (physics w))
  else pores (phase w) (name (physics w)).

(** What [washburn] computes at one element before slicing and clamping:
    -2*sigma*cos(radians(theta))/r. *)
Definition washburn_elem (sigma theta r : float) : float :=
  fdiv (fmul (fmul (Num (-2)) sigma) (fcos (fradians theta))) r.

(** What [purcell] computes at one element before slicing. *)
Definition purcell_elem (R sigma theta r : float) : float :=
  let alpha :=
    fadd (fsub theta (Num 180))
         (farcsin (fsin (fdiv (fradians theta) (fadd (Num 1) (fdiv r R))))) in
  fmul (fdiv (fmul (Num (-2)) sigma) r)
       (fdiv (fcos (fradians (fsub theta alpha)))
             (fadd (Num 1)
                   (fmul (fdiv R r) (fsub (Num 1) (fcos (fradians alpha)))))).

(** The entry pressure of the toroidal throat as the specification words it:
    alpha = theta - 180 + arcsin(sin(theta_rad) / (1 + r/R)),
    Pc = (-2 sigma / r) cos(theta_rad - alpha_rad)
         / (1 + (R/r) (1 - cos(alpha_rad))). *)
Definition purcell_spec (R sigma theta r : float) : float :=
  let theta_rad := fradians theta in
  let alpha :=
    fadd (fsub theta (Num 180))
         (farcsin (fdiv (fsin theta_rad) (fadd (Num 1) (fdiv r R)))) in
  let alpha_rad := fradians alpha in
  fdiv (fmul (fdiv (fmul (Num (-2)) sigma) r) (fcos (fsub theta_rad alpha_rad)))
       (fadd (Num 1) (fmul (fdiv R r) (fsub (Num 1) (fcos alpha_rad)))).

(** The reduction an operator string selects: the minimum, the maximum, and
    the mean for every other string. *)
Definition reduce (operator : string) (sel : ndarray) : result float :=
  if decide (operator = "min") then array_min sel
  else if decide (operator = "max") then array_max sel
  else array_mean sel.

(** The reduction of the capillary pressures [pc] of the throats incident
    to pore [i]. *)
Definition pore_reduction (operator : string) (net : Network) (pc : ndarray)
    (i : nat) : result float :=
  (let? sel := take_indices pc (find_neighbor_throats net i) in
   reduce operator sel)%res.

(** A network of two pores at heights 0 and 1 joined by one throat of the
    given diameter, a phase with the given surface tension and contact angle
    on the throat, and a physics that governs everything. *)
Definition two_pores (d : float) : Network :=
  mkNetwork 2 [(0, 1)%nat]
    [(Num 0, Num 0, Num 0); (Num 0, Num 0, Num 1)]
    (<["throat.diameter" := [d]]> ∅).

Definition one_throat (sigma theta d : float) : world :=
  mkWorld (two_pores d)
    (mkPhase (<["throat.surface_tension" := [sigma]]>
                (<["throat.contact_angle" := [theta]]> ∅))
             (fun _ => [0; 1]%nat) (fun _ => [0]%nat))
    (mkPhysics "phys" ∅).

(** The pores of a cluster, a component of a row, and the row of a pore. *)
Definition cluster_pores (clusters : list Z) (c : Z) : list nat :=
  where_ (fun l => (l =? c)%Z) clusters.

Definition vcomp (k : nat) (v : vec3) : float :=
  default NaN (vec3_to_list v !! k).

Definition row_at (net : Network) (p : nat) : vec3 :=
  default (NaN, NaN, NaN) (coords net !! p).

(** What [static_pressure] stores for pore [p] of the cluster labelled [c],
    [k] being the column of the positive component of [g]. *)
Definition pressure_at (net : Network) (rho : ndarray) (g : vec3) (k : nat)
    (clusters : list Z) (c : Z) (p : nat) : float :=
  match amax0 (row_at net <$> cluster_pores clusters c) with
  | Ok tops =>
      fmul (vcomp k (vec3_zip fmul g (vec3_zip fsub tops (row_at net p))))
           (default NaN (rho !! p))
  | Raise _ => NaN
  end.

(** The two pores and their throat, with the capillary pressure of the
    throat stored on the physics. *)
Definition one_throat_pressure (pc : float) : world :=
  mkWorld (two_pores (Num 2))
    (mkPhase ∅ (fun _ => [0; 1]%nat) (fun _ => [0]%nat))
    (mkPhysics "phys" (<["throat.capillary_pressure" := [pc]]> ∅)).

(** The two pores, both occupied by a phase of density 1000: a single
    cluster with one pore at z = 0 and one at z = 1. *)
Definition two_pore_cluster : world :=
  mkWorld (two_pores (Num 2))
    (mkPhase (<["pore.density" := [Num 1000; Num 1000]]>
                (<["pore.occupancy" := [Num 1; Num 1]]> ∅))
             (fun _ => [0; 1]%nat) (fun _ => [0]%nat))
    (mkPhysics "phys" ∅).

(** Earth's gravity along z, the default of [static_pressure]. *)
Definition g_default : float * float * float := (Num 0, Num 0, Num (981 / 100)).

(** One throat, with a physics whose label also lists a throat the
    network does not have. *)
Definition scope_beyond_network : world :=
  mkWorld (two_pores (Num 2))
    (mkPhase (<["throat.surface_tension" := [Num 1]]>
                (<["throat.contact_angle" := [Num 120]]> ∅))
             (fun _ => [0; 1]%nat) (fun _ => [0; 5]%nat))
    (mkPhysics "phys" ∅).

(** Two pores without any throat. *)
Definition lonely_pores : world :=
  mkWorld
    (mkNetwork 2 [] [(Num 0, Num 0, Num 0); (Num 0, Num 0, Num 1)] ∅)
    (mkPhase ∅ (fun _ => [0; 1]%nat) (fun _ => []))
    (mkPhysics "phys" (<["throat.capillary_pressure" := []]> ∅)).

(** The two pores with no pore occupied. *)
Definition two_pores_unoccupied : world :=
  mkWorld (two_pores (Num 2))
    (mkPhase (<["pore.density" := [Num 1000; Num 1000]]>
                (<["pore.occupancy" := [Num 0; Num 0]]> ∅))
             (fun _ => [0; 1]%nat) (fun _ => [0]%nat))
    (mkPhysics "phys" ∅).

(** Three pores in a row joined by two throats, with the interfacial
    properties stored on the throats and a diameter stored on the pores. *)
Definition three_pore_chain : world :=
  mkWorld
    (mkNetwork 3 [(0, 1); (1, 2)]%nat
       [(Num 0, Num 0, Num 0); (Num 0, Num 0, Num 1); (Num 0, Num 0, Num 2)]
       (<["pore.diameter" := [Num 2; Num 2; Num 2]]> ∅))
    (mkPhase (<["throat.surface_tension" := [Num 1; Num 1]]>
                (<["throat.contact_angle" := [Num 120; Num 120]]> ∅))
             (fun _ => [0; 1; 2]%nat) (fun _ => [0; 1]%nat))
    (mkPhysics "phys" ∅).

(** Throat [t] is incident to pore [i]: one of its two endpoints is [i]. *)
Definition incident (net : Network) (t i : nat) : Prop :=
  exists a b, conns net !! t = Some (a, b) /\ (a = i \/ b = i).

(** Three pores in a row joined by two throats whose capillary pressures,
    1 and 3, are stored on the physics: the middle pore has both throats. *)
Definition chain_pressures : world :=
  mkWorld
    (mkNetwork 3 [(0, 1); (1, 2)]%nat
       [(Num 0, Num 0, Num 0); (Num 0, Num 0, Num 1); (Num 0, Num 0, Num 2)]
       ∅)
    (mkPhase ∅ (fun _ => [0; 1; 2]%nat) (fun _ => [0; 1]%nat))
    (mkPhysics "phys" (<["throat.capillary_pressure" := [Num 1; Num 3]]> ∅)).

(** Two pores joined by a throat of capillary pressure 5, and a third pore
    that no throat reaches. *)
Definition pair_and_isolated_pore : world :=
  mkWorld
    (mkNetwork 3 [(0, 1)]%nat
       [(Num 0, Num 0, Num 0); (Num 0, Num 0, Num 1); (Num 0, Num 0, Num 2)]
       ∅)
    (mkPhase ∅ (fun _ => [0; 1; 2]%nat) (fun _ => [0]%nat))
    (mkPhysics "phys" (<["throat.capillary_pressure" := [Num 5]]> ∅)).

(** The two pores with the lower one occupied and the upper one not. *)
Definition two_pores_half_occupied : world :=
  mkWorld (two_pores (Num 2))
    (mkPhase (<["pore.density" := [Num 1000; Num 1000]]>
                (<["pore.occupancy" := [Num 1; Num 0]]> ∅))
             (fun _ => [0; 1]%nat) (fun _ => [0]%nat))
    (mkPhysics "phys" ∅).

(** The two pores and their throat with the interfacial properties stored
    on the pores: surface tension 1 and contact angle 30 at both. *)
Definition two_pores_pore_properties : world :=
  mkWorld (two_pores (Num 2))
    (mkPhase (<["pore.surface_tension" := [Num 1; Num 1]]>
                (<["pore.contact_angle" := [Num 30; Num 30]]> ∅))
             (fun _ => [0; 1]%nat) (fun _ => [0]%nat))
    (mkPhysics "phys" ∅).

(** Two pores of diameter 2 holding water vapour, with a physics that
    governs the first pore only. *)
Definition kelvin_world : world :=
  mkWorld
    (mkNetwork 2 [(0, 1)%nat]
       [(Num 0, Num 0, Num 0); (Num 0, Num 0, Num 1)]
       (<["pore.diameter" := [Num 2; Num 2]]> ∅))
    (mkPhase
       (<["pore.temperature" := [Num 300; Num 300]]>
       (<["pore.vapor_pressure" := [Num 3000; Num 3000]]>
       (<["pore.molecular_weight" := [Num (18 / 1000); Num (18 / 1000)]]>
       (<["pore.density" := [Num 1000; Num 1000]]>
       (<["pore.surface_tension" := [Num (72 / 1000); Num (72 / 1000)]]> ∅)))))
       (fun _ => [0]%nat) (fun _ => [0]%nat))
    (mkPhysics "phys" ∅).

(* ===================================================================== *)
(** ** Sanity checks of the embedding on concrete data *)
(* ===================================================================== *)

Example split_head_throat : split_head "throat.diameter" = "throat"%string.
Proof. reflexivity. Qed.

Example unique_example : unique [3; -1; 3; 0; -1]%Z = [-1; 0; 3]%Z.
Proof. reflexivity. Qed.

Example where_example : where_ (fun c => (c =? 3)%Z) [3; -1; 3; 0]%Z = [0; 2]%nat.
Proof. reflexivity. Qed.

Example find_clusters2_example :
  find_clusters2 (mkNetwork 4 [(0, 1); (1, 2); (2, 3)]%nat [] ∅)
                 [true; true; false; true]
  = Ok [0; 0; -1; 3]%Z.
Proof. reflexivity. Qed.

(* ===================================================================== *)
(** ** Facts about floats and arrays *)
(* ===================================================================== *)

Lemma fdiv_num (x y : R) : y <> 0 -> fdiv (Num x) (Num y) = Num (x / y).
Proof. intros Hy. simpl. destruct (decide (y = 0)); [contradiction | reflexivity]. Qed.

Lemma fdiv_by_zero (x : R) : fdiv (Num x) (Num 0) = sign_inf x.
Proof. simpl. destruct (decide (0 = 0)); [reflexivity | congruence]. Qed.

Lemma sign_inf_pos (x : R) : 0 < x -> sign_inf x = PInf.
Proof. intros H. unfold sign_inf. destruct (decide (0 < x)); [reflexivity | contradiction]. Qed.

Lemma sign_inf_neg (x : R) : x < 0 -> sign_inf x = NInf.
Proof.
  intros H. unfold sign_inf.
  destruct (decide (0 < x)); [lra |].
  destruct (decide (x < 0)); [reflexivity | contradiction].
Qed.

Lemma farcsin_num (x : R) : -1 <= x <= 1 -> farcsin (Num x) = Num (asin x).
Proof. intros H. simpl. destruct (decide (-1 <= x <= 1)); [reflexivity | contradiction]. Qed.

Lemma half_num (x : R) : fdiv (Num x) (Num 2) = Num (x / 2).
Proof. apply fdiv_num. lra. Qed.

Lemma feqb_num (x y : R) : feqb (Num x) (Num y) = bool_decide (x = y).
Proof.
  unfold feqb. destruct (decide (x = y)) as [->|Hne].
  - rewrite !bool_decide_eq_true_2; auto.
  - rewrite !bool_decide_eq_false_2; congruence.
Qed.

Lemma feqb_num_ne (x y : R) : x <> y -> feqb (Num x) (Num y) = false.
Proof. intros H. rewrite feqb_num. apply bool_decide_eq_false_2, H. Qed.

Lemma feqb_num_eq (x : R) : feqb (Num x) (Num x) = true.
Proof. rewrite feqb_num. apply bool_decide_eq_true_2. reflexivity. Qed.

Lemma fltb_num (x y : R) : fltb (Num x) (Num y) = bool_decide (x < y).
Proof. reflexivity. Qed.

Lemma fmax2_num (x y : R) : fmax2 (Num x) (Num y) = Num (Rmax x y).
Proof.
  unfold fmax2. simpl. unfold Rmax.
  destruct (decide (x < y)) as [H|H].
  - rewrite bool_decide_eq_true_2 by assumption.
    destruct (Rle_dec x y); [reflexivity | lra].
  - rewrite bool_decide_eq_false_2 by assumption.
    destruct (Rle_dec x y); [f_equal; lra | reflexivity].
Qed.

Lemma fmin2_num (x y : R) : fmin2 (Num x) (Num y) = Num (Rmin x y).
Proof.
  unfold fmin2. simpl. unfold Rmin.
  destruct (decide (y < x)) as [H|H].
  - rewrite bool_decide_eq_true_2 by assumption.
    destruct (Rle_dec x y); [lra | reflexivity].
  - rewrite bool_decide_eq_false_2 by assumption.
    destruct (Rle_dec x y); [reflexivity | lra].
Qed.

(** What [clamp_inf] leaves in the array. *)
Lemma clamp_value_not_inf (v : float) :
  isinf (if feqb (fabs v) PInf then Num 0 else v) = false.
Proof.
  destruct v as [x| | |]; unfold feqb; simpl;
    try case_bool_decide; try reflexivity; congruence.
Qed.

Lemma clamp_inf_no_inf (value : ndarray) (x : float) :
  x ∈ clamp_inf value -> x <> PInf /\ x <> NInf.
Proof.
  unfold clamp_inf. intros Hx.
  apply list_elem_of_fmap in Hx as (v & -> & _).
  pose proof (clamp_value_not_inf v) as H.
  destruct (if feqb (fabs v) PInf then Num 0 else v); simpl in H; split; congruence.
Qed.

Lemma clamp_inf_num (value : ndarray) (j : nat) (x : R) :
  value !! j = Some (Num x) -> clamp_inf value !! j = Some (Num x).
Proof.
  intros H. unfold clamp_inf. rewrite list_lookup_fmap, H. simpl.
  reflexivity.
Qed.

Lemma length_clamp_inf (value : ndarray) : length (clamp_inf value) = length value.
Proof. unfold clamp_inf. apply length_fmap. Qed.

Lemma broadcast_same_length f (a b : ndarray) :
  length a = length b -> broadcast f a b = Ok (zip_with f a b).
Proof. intros H. unfold broadcast. destruct (decide _); [reflexivity | contradiction]. Qed.

Lemma take_indices_fmap (a : ndarray) (idx : list nat) :
  Forall (fun i => (i < length a)%nat) idx ->
  take_indices a idx = Ok ((fun i => default NaN (a !! i)) <$> idx).
Proof.
  induction 1 as [|i idx Hi _ IH]; simpl; [reflexivity |].
  destruct (lookup_lt_is_Some_2 a i Hi) as [x Hx].
  rewrite Hx, IH. reflexivity.
Qed.

Lemma take_indices_ok (a : ndarray) (idx : list nat) :
  Forall (fun i => (i < length a)%nat) idx ->
  exists v, take_indices a idx = Ok v.
Proof.
  induction 1 as [|i idx Hi _ [v IH]]; simpl.
  - eauto.
  - destruct (lookup_lt_is_Some_2 a i Hi) as [x ->]. rewrite IH. eauto.
Qed.

Lemma take_indices_spec (a : ndarray) (idx : list nat) (v : ndarray) :
  take_indices a idx = Ok v ->
  length v = length idx /\
  forall j i, idx !! j = Some i -> v !! j = a !! i /\ (i < length a)%nat.
Proof.
  revert v. induction idx as [|i idx IH]; simpl; intros v H.
  - injection H as <-. split; [reflexivity | intros j i' Hj; discriminate].
  - destruct (a !! i) as [x|] eqn:Hx; [|discriminate].
    destruct (take_indices a idx) as [l|e]; [|discriminate].
    injection H as <-. destruct (IH l eq_refl) as [Hlen Hl].
    split; [simpl; congruence |].
    intros [|j] i' Hj; simpl in *.
    + injection Hj as <-. split; [congruence | eapply lookup_lt_Some, Hx].
    + apply Hl, Hj.
Qed.

(* ===================================================================== *)
(** ** Zero-radius substitution *)
(* ===================================================================== *)

Lemma array_max_ok (a : ndarray) : a <> [] -> exists m, array_max a = Ok m.
Proof. destruct a; [congruence | simpl; eauto]. Qed.

Lemma handle_zeros_max (a : ndarray) (m : float) :
  array_max a = Ok m ->
  _handle_zeros a "max" None = Ok (assign_where_eq a (Num 0) m).
Proof. intros H. unfold _handle_zeros. simpl. rewrite H. reflexivity. Qed.

Lemma handle_zeros_max_ok (a : ndarray) :
  a <> [] -> exists r, _handle_zeros a "max" None = Ok r /\ length r = length a.
Proof.
  intros Ha. destruct (array_max_ok a Ha) as [m Hm].
  rewrite (handle_zeros_max a m Hm). eexists; split; [reflexivity |].
  unfold assign_where_eq. apply length_fmap.
Qed.

Lemma handle_zeros_length (a r : ndarray) (mode : string) (value : option float) :
  _handle_zeros a mode value = Ok r -> length r = length a.
Proof.
  unfold _handle_zeros. intros H.
  destruct (match value with Some _ => _ | None => _ end) as [v|e]; simpl in H;
    [|discriminate].
  injection H as <-. unfold assign_where_eq. apply length_fmap.
Qed.

(** Entries that are not zero are left as they are, in every mode. *)
Lemma handle_zeros_nonzero_unchanged (a r : ndarray) (mode : string)
    (value : option float) (i : nat) (x : float) :
  _handle_zeros a mode value = Ok r ->
  a !! i = Some x -> feqb x (Num 0) = false -> r !! i = Some x.
Proof.
  unfold _handle_zeros. intros H Hi Hx.
  destruct (match value with Some _ => _ | None => _ end) as [v|e]; simpl in H;
    [|discriminate].
  injection H as <-. unfold assign_where_eq.
  rewrite list_lookup_fmap, Hi. simpl. rewrite Hx. reflexivity.
Qed.

(** [foldl fmax2] over finite values is finite and bounds them. *)
Lemma foldl_fmax2_num (l : list R) (x : R) :
  exists m, foldl fmax2 (Num x) (fmap Num l) = Num m /\ x <= m /\
            Forall (fun y => y <= m) l /\ (m = x \/ m ∈ l).
Proof.
  revert x. induction l as [|y l IH]; intros x; simpl.
  - exists x. repeat split; [lra | constructor | auto].
  - rewrite fmax2_num. destruct (IH (Rmax x y)) as (m & Hm & Hle & Hall & Hin).
    exists m. split; [exact Hm |].
    pose proof (Rmax_l x y). pose proof (Rmax_r x y).
    split; [lra |]. split; [constructor; [lra | exact Hall] |].
    destruct Hin as [->|Hin].
    + unfold Rmax. destruct (Rle_dec x y); [right; left | left; reflexivity].
    + right; right; exact Hin.
Qed.

(** With mode 'max' on non-negative finite radii of which one is positive,
    no zero is left. *)
Lemma handle_zeros_max_no_zero (l : list R) (r : ndarray) :
  Forall (fun y => 0 <= y) l -> Exists (fun y => 0 < y) l ->
  _handle_zeros (fmap Num l) "max" None = Ok r ->
  Forall (fun v => exists y, v = Num y /\ 0 < y) r.
Proof.
  intros Hnn Hpos H.
  destruct l as [|x l]; [inversion Hpos |].
  destruct (foldl_fmax2_num l x) as (m & Hm & Hxm & Hall & _).
  assert (Hr : r = assign_where_eq (Num <$> x :: l) (Num 0) (Num m)).
  { rewrite (handle_zeros_max _ (Num m)) in H; [congruence |].
    rewrite fmap_cons. unfold array_max. rewrite Hm. reflexivity. }
  subst r.
  assert (Hmpos : 0 < m).
  { apply Exists_cons in Hpos as [Hx|Hex]; [lra |].
    apply Exists_exists in Hex as (y & Hy & Hy0).
    rewrite Forall_forall in Hall. specialize (Hall y Hy). lra. }
  unfold assign_where_eq. rewrite Forall_fmap, Forall_fmap.
  eapply Forall_impl; [exact Hnn |]. intros y Hy. unfold compose.
  rewrite feqb_num. destruct (decide (y = 0)) as [->|Hne].
  - rewrite bool_decide_eq_true_2 by reflexivity. eauto.
  - rewrite bool_decide_eq_false_2 by assumption. exists y. split; [reflexivity | lra].
Qed.

(** C6.  With mode 'min' (and likewise 'mean') and no caller-supplied
    constant, the zero-radius substitution does not replace the zeros by the
    minimum (mean) of the non-zero entries: [~array == 0.0] inverts the float
    array before comparing it, which numpy refuses, so the call raises
    [TypeError] -- here on the radii [1, 0, 2]. *)
Theorem handle_zeros_min_mean_raise :
  _handle_zeros [Num 1; Num 0; Num 2] "min" None = Raise TypeError /\
  _handle_zeros [Num 1; Num 0; Num 2] "mean" None = Raise TypeError.
Proof. split; reflexivity. Qed.

(* ===================================================================== *)
(** ** Running a model *)
(* ===================================================================== *)

Lemma bind_run {A B} (c : M A) (k : A -> M B) (w w' : world) (a : A) :
  c w = (Ok a, w') -> bind c k w = k a w'.
Proof. intros H. unfold bind. rewrite H. reflexivity. Qed.

Lemma bind_lift_ok {A B} (c : result A) (k : A -> M B) (w : world) (a : A) :
  c = Ok a -> bind (lift c) k w = k a w.
Proof. intros ->. reflexivity. Qed.

Lemma preserves_ret {A} (a : A) : preserves (ret a).
Proof. intros w. reflexivity. Qed.

Lemma preserves_lift {A} (c : result A) : preserves (lift c).
Proof. intros w. reflexivity. Qed.

Lemma preserves_bind {A B} (c : M A) (k : A -> M B) :
  preserves c -> (forall a, preserves (k a)) -> preserves (bind c k).
Proof.
  intros Hc Hk w. unfold bind. specialize (Hc w).
  destruct (c w) as [[a|e] w']; simpl in Hc; subst w'; [apply Hk | reflexivity].
Qed.

Lemma preserves_for_each {A S} (l : list A) (body : A -> S -> M S) (s : S) :
  (forall x s', preserves (body x s')) -> preserves (for_each l body s).
Proof.
  intros Hb. revert s. induction l as [|x l IH]; intros s; simpl.
  - apply preserves_ret.
  - apply preserves_bind; [apply Hb | exact IH].
Qed.

Lemma preserves_interpolate_data (data : ndarray) : preserves (interpolate_data data).
Proof. intros w. reflexivity. Qed.

Lemma preserves_read (v : var) : preserves (read v).
Proof. destruct v; intros w; reflexivity. Qed.

Lemma preserves_scope_indices (entity : string) : preserves (scope_indices entity).
Proof.
  unfold scope_indices. apply preserves_bind; [intros w; reflexivity |].
  intros n. destruct (String.eqb entity "throat"); intros w; reflexivity.
Qed.

Lemma preserves_get_key_props (d st ca : string) : preserves (_get_key_props d st ca).
Proof.
  unfold _get_key_props.
  apply preserves_bind.
  { destruct (_ && _); repeat (apply preserves_bind; [|intros ?]);
      try apply preserves_interpolate_data; try apply preserves_ret;
      intros w; reflexivity. }
  intros sigma. apply preserves_bind; [|intros ?; apply preserves_ret].
  destruct (_ && _); repeat (apply preserves_bind; [|intros ?]);
    try apply preserves_interpolate_data; try apply preserves_ret;
    intros w; reflexivity.
Qed.

Create HintDb preserves.
#[local] Hint Resolve preserves_ret preserves_lift preserves_read
  preserves_scope_indices preserves_get_key_props preserves_interpolate_data
  : preserves.

Ltac preserves_step :=
  first [ solve [auto with preserves]
        | apply preserves_for_each; intros ? ?
        | apply preserves_bind; [| intros ?]
        | solve [intros ?; reflexivity] ].

Lemma washburn_preserves (st ca d : string) : preserves (washburn st ca d).
Proof.
  unfold washburn. apply preserves_bind; [auto with preserves |].
  intros [[entity sigma] theta]. repeat preserves_step.
Qed.

Lemma purcell_preserves (R : float) (st ca d : string) : preserves (purcell R st ca d).
Proof.
  unfold purcell. apply preserves_bind; [auto with preserves |].
  intros [[entity sigma] theta]. repeat preserves_step.
Qed.

Lemma kelvin_preserves (d t vp mw rho st : string) : preserves (kelvin d t vp mw rho st).
Proof. unfold kelvin. repeat preserves_step. Qed.

Lemma from_throat_preserves (cp op : string) : preserves (from_throat cp op).
Proof. unfold from_throat. repeat preserves_step. Qed.

Lemma static_pressure_preserves (rho occ : string) (g : vec3) :
  preserves (static_pressure rho occ g).
Proof. unfold static_pressure. repeat preserves_step. Qed.

(** The variable [_get_key_props] binds for one interfacial property. *)
Lemma resolve_one_run (key d : string) (w : world) (a : ndarray) :
  resolved key d w = Ok a ->
  exists v,
    (if String.eqb (split_head key) "pore" && String.eqb (split_head d) "throat"
     then bind (phase_getitem key)
            (fun x => bind (interpolate_data x) (fun y => ret (Temp y)))
     else bind (phase_getitem key) (fun _ => ret (Alias key))) w = (Ok v, w) /\
    read v w = (Ok a, w) /\
    v = (if String.eqb (split_head key) "pore" && String.eqb (split_head d) "throat"
         then Temp a else Alias key).
Proof.
  unfold resolved. destruct (_ && _).
  - unfold bind, phase_getitem. simpl.
    destruct (getitem (phase_props (phase w)) key) as [x|e]; simpl; [|discriminate].
    unfold interpolate_data.
    destruct (decide (length x = Np (network w))); [|discriminate].
    intros ->. eexists; repeat split; reflexivity.
  - intros H. exists (Alias key).
    unfold read, bind, phase_getitem, ret. rewrite H. repeat split; reflexivity.
Qed.

Lemma get_key_props_run (d st ca : string) (w : world) (sigma theta : ndarray) :
  resolved st d w = Ok sigma -> resolved ca d w = Ok theta ->
  exists vs vt,
    _get_key_props d st ca w = (Ok (split_head d, vs, vt), w) /\
    read vs w = (Ok sigma, w) /\ read vt w = (Ok theta, w) /\
    vt = (if String.eqb (split_head ca) "pore" && String.eqb (split_head d) "throat"
          then Temp theta else Alias ca).
Proof.
  intros Hs Ht.
  destruct (resolve_one_run st d w sigma Hs) as (vs & Hvs & Hrs & _).
  destruct (resolve_one_run ca d w theta Ht) as (vt & Hvt & Hrt & Hvt').
  exists vs, vt. repeat split; try assumption.
  unfold _get_key_props.
  rewrite (bind_run _ _ w w vs Hvs), (bind_run _ _ w w vt Hvt). reflexivity.
Qed.

(* ===================================================================== *)
(** ** Effects on the stored arrays *)
(* ===================================================================== *)

(** When the contact angle is not interpolated, [cuboid] converts the array
    the phase stores to radians, in place. *)
Lemma cuboid_stores_radians (st ca d : string) (w : world) (sigma theta : ndarray) :
  String.eqb (split_head ca) "pore" && String.eqb (split_head d) "throat" = false ->
  resolved st d w = Ok sigma ->
  phase_props (phase w) !! ca = Some theta ->
  phase_props (phase (cuboid st ca d w).2)
  = <[ca := (fun x => fmul x (Num (2 * PI / 360))) <$> theta]> (phase_props (phase w)).
Proof.
  intros Hc Hs Ht.
  assert (Ht' : resolved ca d w = Ok theta).
  { unfold resolved, getitem. rewrite Hc, Ht. reflexivity. }
  destruct (get_key_props_run d st ca w sigma theta Hs Ht')
    as (vs & vt & Hrun & _ & _ & Hvt).
  rewrite Hc in Hvt. subst vt.
  unfold cuboid. rewrite (bind_run _ _ w w _ Hrun).
  set (w' := (phase_store ca ((fun x => fmul x (Num (2 * PI / 360))) <$> theta) w).2).
  assert (Him : imul (Alias ca) (Num (2 * PI / 360)) w = (Ok (Alias ca), w')).
  { unfold imul, bind, phase_getitem, getitem. simpl. rewrite Ht. reflexivity. }
  rewrite (bind_run _ _ w w' _ Him).
  match goal with |- context [phase (?c w').2] =>
    assert (Hp : preserves c) by repeat preserves_step end.
  rewrite Hp. reflexivity.
Qed.

Lemma get_key_props_interpolated (d st ca : string) (w w' : world)
    (entity : string) (vs vt : var) :
  String.eqb (split_head ca) "pore" && String.eqb (split_head d) "throat" = true ->
  _get_key_props d st ca w = (Ok (entity, vs, vt), w') ->
  exists a, vt = Temp a.
Proof.
  intros Hc. unfold _get_key_props. rewrite Hc. unfold bind at 1.
  match goal with |- context [match ?c w with _ => _ end] =>
    destruct (c w) as [[vs'|e] w1] end; [|discriminate].
  unfold bind, phase_getitem, interpolate_data, ret.
  destruct (getitem _ ca) as [x|e]; [|discriminate].
  destruct (decide _) as [_|_]; [|discriminate].
  destruct (map_result _ _) as [y|e]; [|discriminate].
  intros H. injection H as _ _ <- _. eauto.
Qed.

(** With the contact angle interpolated from the pores, [cuboid] works on a
    temporary and leaves the stored arrays alone. *)
Lemma cuboid_preserves_on_interpolation (st ca d : string) (w : world) :
  String.eqb (split_head ca) "pore" && String.eqb (split_head d) "throat" = true ->
  (cuboid st ca d w).2 = w.
Proof.
  intros Hc. unfold cuboid.
  pose proof (preserves_get_key_props d st ca w) as Hw.
  destruct (_get_key_props d st ca w) as [[[[entity vs] vt]|e] w'] eqn:Hrun;
    simpl in Hw; subst w'.
  - rewrite (bind_run _ _ w w _ Hrun).
    destruct (get_key_props_interpolated d st ca w w entity vs vt Hc Hrun) as [a ->].
    match goal with |- (?c w).2 = w => assert (Hp : preserves c) end; [|apply Hp].
    repeat preserves_step.
  - unfold bind. rewrite Hrun. reflexivity.
Qed.

(** C3.  A capillary-pressure model call can change an array stored on the
    phase: [cuboid] multiplies the contact angle by 2*pi/360 in place, and
    when the contact angle is not interpolated that array is the phase's own.
    On one throat with contact angle 90, the phase holds pi/2 after the
    call. *)
Theorem cuboid_overwrites_contact_angle :
  let w := one_throat (Num 1) (Num 90) (Num 2) in
  let w' := (cuboid "throat.surface_tension" "throat.contact_angle"
                    "throat.diameter" w).2 in
  phase_props (phase w) !! "throat.contact_angle" = Some [Num 90] /\
  phase_props (phase w') !! "throat.contact_angle" = Some [Num (90 * (2 * PI / 360))] /\
  phase_props (phase w') !! "throat.contact_angle"
    <> phase_props (phase w) !! "throat.contact_angle".
Proof.
  intros w w'.
  assert (H0 : phase_props (phase w) !! "throat.contact_angle" = Some [Num 90])
    by reflexivity.
  assert (H1 : phase_props (phase w') !! "throat.contact_angle"
               = Some [Num (90 * (2 * PI / 360))]).
  { subst w'. erewrite cuboid_stores_radians; [| reflexivity | reflexivity | exact H0].
    rewrite lookup_insert_eq. reflexivity. }
  split; [exact H0 |]. split; [exact H1 |].
  rewrite H0, H1. intros Heq. injection Heq as Heq.
  pose proof PI_4. lra.
Qed.

(* ===================================================================== *)
(** ** Washburn *)
(* ===================================================================== *)

Lemma bind_lift_Ok {A B} (a : A) (k : A -> M B) (w : world) :
  bind (lift (Ok a)) k w = k a w.
Proof. reflexivity. Qed.

Lemma scope_indices_run (entity : string) (w : world) :
  scope_indices entity w = (Ok (scope_of entity w), w).
Proof.
  unfold scope_indices, scope_of, bind, physics_name.
  destruct (String.eqb entity "throat"); reflexivity.
Qed.

Lemma handle_zeros_singleton (x : float) : _handle_zeros [x] "max" None = Ok [x].
Proof.
  rewrite (handle_zeros_max [x] x) by reflexivity.
  unfold assign_where_eq. simpl. destruct (feqb x (Num 0)); reflexivity.
Qed.

Ltac solve_lengths :=
  repeat (rewrite length_zip_with || rewrite length_fmap); lia.

(** The run of [washburn] on well-shaped data. *)
Lemma washburn_run (st ca d : string) (w : world) (sigma theta diam r : ndarray) :
  resolved st d w = Ok sigma -> resolved ca d w = Ok theta ->
  net_props (network w) !! d = Some diam ->
  _handle_zeros ((fun x => fdiv x (Num 2)) <$> diam) "max" None = Ok r ->
  length sigma = length r -> length theta = length r ->
  washburn st ca d w =
  (match take_indices
           (zip_with fdiv
              (zip_with fmul (fmul (Num (-2)) <$> sigma)
                             ((fun t => fcos (fradians t)) <$> theta)) r)
           (scope_of (split_head d) w) with
   | Ok v => Ok (clamp_inf v)
   | Raise e => Raise e
   end, w).
Proof.
  intros Hs Ht Hd Hr Hls Hlt.
  destruct (get_key_props_run d st ca w sigma theta Hs Ht)
    as (vs & vt & Hrun & Hrs & Hrt & _).
  unfold washburn. rewrite (bind_run _ _ w w _ Hrun).
  assert (Hget : network_getitem d w = (Ok diam, w)).
  { unfold network_getitem, getitem. rewrite Hd. reflexivity. }
  rewrite (bind_run _ _ w w _ Hget), Hr, bind_lift_Ok.
  rewrite (bind_run _ _ w w _ Hrs), (bind_run _ _ w w _ Hrt).
  rewrite broadcast_same_length by solve_lengths. rewrite bind_lift_Ok.
  rewrite broadcast_same_length by solve_lengths. rewrite bind_lift_Ok.
  rewrite (bind_run _ _ w w _ (scope_indices_run _ w)).
  unfold bind, lift, ret.
  destruct (take_indices _ _); reflexivity.
Qed.

(** Elementwise reading of the run: every index of the scope that points
    into the arrays yields the Washburn expression of its element, clamped. *)
Lemma washburn_values (st ca d : string) (w : world) (sigma theta diam r : ndarray) :
  resolved st d w = Ok sigma -> resolved ca d w = Ok theta ->
  net_props (network w) !! d = Some diam ->
  _handle_zeros ((fun x => fdiv x (Num 2)) <$> diam) "max" None = Ok r ->
  length sigma = length r -> length theta = length r ->
  Forall (fun i => (i < length r)%nat) (scope_of (split_head d) w) ->
  exists v,
    washburn st ca d w = (Ok v, w) /\
    length v = length (scope_of (split_head d) w) /\
    forall j i s t ri,
      scope_of (split_head d) w !! j = Some i ->
      sigma !! i = Some s -> theta !! i = Some t -> r !! i = Some ri ->
      v !! j = Some (let x := washburn_elem s t ri in
                     if feqb (fabs x) PInf then Num 0 else x).
Proof.
  intros Hs Ht Hd Hr Hls Hlt Hidx.
  rewrite (washburn_run st ca d w sigma theta diam r) by assumption.
  set (full := zip_with fdiv _ r).
  assert (Hfull : length full = length r) by (unfold full; solve_lengths).
  destruct (take_indices_ok full (scope_of (split_head d) w)) as [v Hv].
  { rewrite Hfull. exact Hidx. }
  rewrite Hv. exists (clamp_inf v).
  destruct (take_indices_spec _ _ _ Hv) as [Hlen Hlook].
  split; [reflexivity |]. split; [rewrite length_clamp_inf; exact Hlen |].
  intros j i s t ri Hj Hsi Hti Hri.
  destruct (Hlook j i Hj) as [Hvj _].
  unfold clamp_inf. rewrite list_lookup_fmap, Hvj. unfold full.
  rewrite !lookup_zip_with, !list_lookup_fmap, Hsi, Hti, Hri. reflexivity.
Qed.

Lemma washburn_elem_num (s t ri : R) :
  ri <> 0 ->
  washburn_elem (Num s) (Num t) (Num ri) = Num (-2 * s * cos (t * (PI / 180)) / ri).
Proof. intros H. unfold washburn_elem, fradians. simpl fmul. simpl fcos. apply fdiv_num, H. Qed.

Lemma radians_90 : 90 * (PI / 180) = PI / 2.
Proof. lra. Qed.

Lemma radians_180 : 180 * (PI / 180) = PI.
Proof. lra. Qed.


(** The Washburn formula in the exact real arithmetic of this development,
    which has neither rounding nor overflow: on well-shaped data [washburn]
    returns one value per index of the scope; an element with finite sigma,
    theta and r > 0 gets Pc = -2 sigma cos(theta pi/180) / r, which over the
    reals is 0 at theta = 90, strictly positive for sigma > 0 and
    90 < theta < 270, and strictly negative for sigma > 0 and
    -90 < theta < 90.  In binary64 the cosine of the rounded pi/2 is not 0
    and a product beyond the largest double is clamped to 0, so the value at
    90 degrees and the strictness of the signs are facts of the reals only. *)
Lemma washburn_formula_and_sign (st ca d : string) (w : world)
    (sigma theta diam r : ndarray) :
  resolved st d w = Ok sigma -> resolved ca d w = Ok theta ->
  net_props (network w) !! d = Some diam ->
  _handle_zeros ((fun x => fdiv x (Num 2)) <$> diam) "max" None = Ok r ->
  length sigma = length r -> length theta = length r ->
  Forall (fun i => (i < length r)%nat) (scope_of (split_head d) w) ->
  exists v,
    washburn st ca d w = (Ok v, w) /\
    length v = length (scope_of (split_head d) w) /\
    forall (j i : nat) (s t ri : R),
      scope_of (split_head d) w !! j = Some i ->
      sigma !! i = Some (Num s) -> theta !! i = Some (Num t) ->
      r !! i = Some (Num ri) -> 0 < ri ->
      let Pc := -2 * s * cos (t * (PI / 180)) / ri in
      v !! j = Some (Num Pc) /\
      (t = 90 -> Pc = 0) /\
      (0 < s -> 90 < t < 270 -> 0 < Pc) /\
      (0 < s -> -90 < t < 90 -> Pc < 0).
Proof.
  intros Hs Ht Hd Hr Hls Hlt Hidx.
  destruct (washburn_values st ca d w sigma theta diam r) as (v & Hrun & Hlen & Hv);
    try assumption.
  exists v. split; [exact Hrun |]. split; [exact Hlen |].
  intros j i s t ri Hj Hsi Hti Hri Hpos Pc.
  split; [|split; [|split]].
  - rewrite (Hv j i _ _ _ Hj Hsi Hti Hri).
    rewrite washburn_elem_num by lra. reflexivity.
  - intros ->. unfold Pc. rewrite radians_90, cos_PI2. field. lra.
  - intros Hsig [Hlo Hhi]. unfold Pc.
    assert (Hc : cos (t * (PI / 180)) < 0).
    { pose proof PI_RGT_0. apply cos_lt_0; nra. }
    apply Rdiv_lt_0_compat; [nra | exact Hpos].
  - intros Hsig [Hlo Hhi]. unfold Pc.
    assert (Hc : 0 < cos (t * (PI / 180))).
    { pose proof PI_RGT_0. apply cos_gt_0; nra. }
    assert (Hq : 0 < 2 * s * cos (t * (PI / 180)) / ri).
    { apply Rdiv_lt_0_compat; [nra | exact Hpos]. }
    replace (-2 * s * cos (t * (PI / 180)) / ri)
      with (- (2 * s * cos (t * (PI / 180)) / ri)) by (field; lra).
    lra.
Qed.

Lemma singleton_of_lookup {A} (v : list A) (x : A) :
  length v = 1%nat -> v !! 0%nat = Some x -> v = [x].
Proof.
  destruct v as [|y [|z v]]; simpl; intros Hl Hx; try discriminate.
  congruence.
Qed.

(** The run of [washburn] on a single throat. *)
Lemma washburn_one_throat (sigma theta d : float) :
  let w := one_throat sigma theta d in
  washburn "throat.surface_tension" "throat.contact_angle" "throat.diameter" w
  = (Ok [let x := washburn_elem sigma theta (fdiv d (Num 2)) in
         if feqb (fabs x) PInf then Num 0 else x], w).
Proof.
  intros w.
  destruct (washburn_values "throat.surface_tension" "throat.contact_angle"
              "throat.diameter" w [sigma] [theta] [d] [fdiv d (Num 2)])
    as (v & Hrun & Hlen & Hv);
    try reflexivity.
  { apply handle_zeros_singleton. }
  { repeat constructor. }
  rewrite Hrun. f_equal. f_equal.
  apply singleton_of_lookup; [exact Hlen |].
  apply (Hv 0%nat 0%nat); reflexivity.
Qed.

Lemma washburn_formula_and_sign_witness :
  let w := one_throat (Num 1) (Num 120) (Num 2) in
  exists v,
    washburn "throat.surface_tension" "throat.contact_angle" "throat.diameter" w
    = (Ok v, w) /\
    v !! 0%nat = Some (Num (-2 * 1 * cos (120 * (PI / 180)) / (2 / 2))) /\
    0 < -2 * 1 * cos (120 * (PI / 180)) / (2 / 2).
Proof.
  intros w.
  destruct (washburn_formula_and_sign "throat.surface_tension"
              "throat.contact_angle" "throat.diameter" w
              [Num 1] [Num 120] [Num 2] [Num (2 / 2)])
    as (v & Hrun & _ & Hv).
  - reflexivity.
  - reflexivity.
  - reflexivity.
  - rewrite <- half_num. apply (handle_zeros_singleton (fdiv (Num 2) (Num 2))).
  - reflexivity.
  - reflexivity.
  - repeat constructor.
  - exists v. split; [exact Hrun |].
    destruct (Hv 0%nat 0%nat 1 120 (2 / 2)) as (H1 & _ & H2 & _);
      try reflexivity; [lra |].
    split; [exact H1 | apply H2; lra].
Defined.

(* ===================================================================== *)
(** ** Purcell *)
(* ===================================================================== *)

(** The run of [purcell] on well-shaped data: the array before slicing holds
    [purcell_elem] of every element, and nothing is raised on the way. *)
Lemma purcell_run (R : float) (st ca d : string) (w : world)
    (sigma theta diam r : ndarray) :
  resolved st d w = Ok sigma -> resolved ca d w = Ok theta ->
  net_props (network w) !! d = Some diam ->
  _handle_zeros ((fun x => fdiv x (Num 2)) <$> diam) "max" None = Ok r ->
  length sigma = length r -> length theta = length r ->
  exists full,
    purcell R st ca d w = (take_indices full (scope_of (split_head d) w), w) /\
    length full = length r /\
    forall i s t ri,
      sigma !! i = Some s -> theta !! i = Some t -> r !! i = Some ri ->
      full !! i = Some (purcell_elem R s t ri).
Proof.
  intros Hs Ht Hd Hr Hls Hlt.
  destruct (get_key_props_run d st ca w sigma theta Hs Ht)
    as (vs & vt & Hrun & Hrs & Hrt & _).
  unfold purcell. rewrite (bind_run _ _ w w _ Hrun).
  assert (Hget : network_getitem d w = (Ok diam, w)).
  { unfold network_getitem, getitem. rewrite Hd. reflexivity. }
  rewrite (bind_run _ _ w w _ Hget), Hr, bind_lift_Ok.
  rewrite (bind_run _ _ w w _ Hrs), (bind_run _ _ w w _ Hrt).
  rewrite broadcast_same_length by solve_lengths. rewrite bind_lift_Ok.
  set (q := zip_with fdiv _ _).
  assert (Hq : length q = length r) by (unfold q; solve_lengths).
  rewrite broadcast_same_length by solve_lengths. rewrite bind_lift_Ok.
  set (alpha := zip_with fadd _ _).
  assert (Ha : length alpha = length r) by (unfold alpha; solve_lengths).
  rewrite broadcast_same_length by solve_lengths. rewrite bind_lift_Ok.
  set (lhs := zip_with fdiv _ r).
  assert (Hl : length lhs = length r) by (unfold lhs; solve_lengths).
  rewrite broadcast_same_length by solve_lengths. rewrite bind_lift_Ok.
  set (ta := zip_with fsub theta alpha).
  assert (Hta : length ta = length r) by (unfold ta; solve_lengths).
  rewrite broadcast_same_length by solve_lengths. rewrite bind_lift_Ok.
  set (Rr := zip_with fmul _ _).
  assert (HRr : length Rr = length r) by (unfold Rr; solve_lengths).
  rewrite broadcast_same_length by solve_lengths. rewrite bind_lift_Ok.
  set (rhs := zip_with fdiv _ _).
  assert (Hrhs : length rhs = length r) by (unfold rhs; solve_lengths).
  rewrite broadcast_same_length by solve_lengths. rewrite bind_lift_Ok.
  rewrite (bind_run _ _ w w _ (scope_indices_run _ w)).
  exists (zip_with fmul lhs rhs).
  split; [reflexivity |]. split; [solve_lengths |].
  intros i s t ri Hsi Hti Hri.
  assert (Hqi : q !! i = Some (fdiv (fradians t) (fadd (Num 1) (fdiv ri R)))).
  { unfold q. rewrite lookup_zip_with, !list_lookup_fmap, Hti, Hri. reflexivity. }
  assert (Hai : alpha !! i = Some (fadd (fsub t (Num 180))
            (farcsin (fsin (fdiv (fradians t) (fadd (Num 1) (fdiv ri R))))))).
  { unfold alpha. rewrite lookup_zip_with, !list_lookup_fmap, Hti, Hqi. reflexivity. }
  unfold rhs, Rr, lhs, ta.
  repeat (rewrite lookup_zip_with || rewrite list_lookup_fmap).
  rewrite Hsi, Hti, Hri, Hai. reflexivity.
Qed.

(** The run of [purcell] on a single throat. *)
Lemma purcell_one_throat (R sigma theta d : float) :
  let w := one_throat sigma theta d in
  purcell R "throat.surface_tension" "throat.contact_angle" "throat.diameter" w
  = (Ok [purcell_elem R sigma theta (fdiv d (Num 2))], w).
Proof.
  intros w.
  destruct (purcell_run R "throat.surface_tension" "throat.contact_angle"
              "throat.diameter" w [sigma] [theta] [d] [fdiv d (Num 2)])
    as (full & Hrun & Hlen & Hv);
    try reflexivity.
  { apply handle_zeros_singleton. }
  rewrite Hrun.
  rewrite (singleton_of_lookup full _ Hlen (Hv 0%nat _ _ _ eq_refl eq_refl eq_refl)).
  reflexivity.
Qed.

Lemma fadd_num (x y : R) : fadd (Num x) (Num y) = Num (x + y).
Proof. reflexivity. Qed.

Lemma fsub_num (x y : R) : fsub (Num x) (Num y) = Num (x - y).
Proof. reflexivity. Qed.

Lemma fmul_num (x y : R) : fmul (Num x) (Num y) = Num (x * y).
Proof. reflexivity. Qed.

Lemma fcos_num (x : R) : fcos (Num x) = Num (cos x).
Proof. reflexivity. Qed.

Lemma fsin_num (x : R) : fsin (Num x) = Num (sin x).
Proof. reflexivity. Qed.

Lemma farcsin_sin (x : R) : farcsin (Num (sin x)) = Num (asin (sin x)).
Proof. apply farcsin_num. apply SIN_bound. Qed.

Ltac float_num :=
  repeat first [ rewrite fmul_num | rewrite fadd_num | rewrite fsub_num
               | rewrite fcos_num | rewrite fsin_num | rewrite farcsin_sin
               | rewrite fdiv_num by (assumption || lra) ].

(** Where the denominator 1 + R/r (1 - cos alpha) vanishes, [purcell]
    divides by zero: toroid radius -1/2, contact angle 360, radius 1. *)
Lemma purcell_elem_pole :
  purcell_elem (Num (-1 / 2)) (Num 1) (Num 360) (Num 1) = PInf.
Proof.
  unfold purcell_elem, fradians. float_num.
  assert (Hq : 360 * (PI / 180) / (1 + 1 / (-1 / 2)) = - (2 * PI)) by (field; lra).
  rewrite Hq, sin_neg, sin_2PI, Ropp_0, asin_0.
  replace ((360 - (360 - 180 + 0)) * (PI / 180)) with PI by lra.
  replace ((360 - 180 + 0) * (PI / 180)) with PI by lra.
  rewrite cos_PI.
  replace (1 + -1 / 2 / 1 * (1 - -1)) with 0 by lra.
  rewrite fdiv_by_zero, (sign_inf_neg (-1)) by lra.
  simpl. apply sign_inf_pos. lra.
Qed.

(** C2.  [purcell] does not replace infinite results by 0 as [washburn] and
    [cuboid] do: on one throat of radius 1 with sigma = 1, theta = 360 and
    toroid radius -1/2 it returns +inf. *)
Theorem purcell_returns_infinity :
  let w := one_throat (Num 1) (Num 360) (Num 2) in
  purcell (Num (-1 / 2)) "throat.surface_tension" "throat.contact_angle"
          "throat.diameter" w
  = (Ok [PInf], w).
Proof.
  intros w. unfold w. rewrite purcell_one_throat, half_num.
  replace (2 / 2) with 1 by lra. rewrite purcell_elem_pole. reflexivity.
Qed.

Lemma bind_ok_inv {A B} (c : M A) (k : A -> M B) (w w' : world) (b : B) :
  bind c k w = (Ok b, w') -> exists a w1, c w = (Ok a, w1) /\ k a w1 = (Ok b, w').
Proof.
  unfold bind. destruct (c w) as [[a|e] w1]; [eauto | discriminate].
Qed.

Ltac bind_inv H :=
  let a := fresh "a" in
  let w1 := fresh "w" in
  let H1 := fresh "Hstep" in
  apply bind_ok_inv in H as (a & w1 & H1 & H).

(** What [washburn] and [cuboid] return holds no infinity. *)
Lemma washburn_no_inf (st ca d : string) (w w' : world) (v : ndarray) (x : float) :
  washburn st ca d w = (Ok v, w') -> x ∈ v -> x <> PInf /\ x <> NInf.
Proof.
  unfold washburn. intros H Hx.
  bind_inv H. destruct a as [[entity sigma] theta].
  do 8 bind_inv H. unfold ret in H. injection H as <- _.
  eapply clamp_inf_no_inf, Hx.
Qed.

Lemma cuboid_no_inf (st ca d : string) (w w' : world) (v : ndarray) (x : float) :
  cuboid st ca d w = (Ok v, w') -> x ∈ v -> x <> PInf /\ x <> NInf.
Proof.
  unfold cuboid. intros H Hx.
  bind_inv H. destruct a as [[entity sigma] theta].
  do 9 bind_inv H. unfold ret in H. injection H as <- _.
  eapply clamp_inf_no_inf, Hx.
Qed.

(* --------------------------------------------------------------------- *)
(** *** The arcsine of Purcell's formula *)

Lemma purcell_elem_out_of_domain :
  purcell_elem (Num (-2 / 3)) (Num 1) (Num 90) (Num 1) = Num 6.
Proof.
  unfold purcell_elem, fradians. float_num.
  assert (Hq : 90 * (PI / 180) / (1 + 1 / (-2 / 3)) = - PI) by (field; lra).
  rewrite Hq, sin_neg, sin_PI, Ropp_0, asin_0.
  replace ((90 - (90 - 180 + 0)) * (PI / 180)) with PI by lra.
  replace ((90 - 180 + 0) * (PI / 180)) with (- (PI / 2)) by lra.
  rewrite cos_PI, cos_neg, cos_PI2.
  rewrite fdiv_num by lra. rewrite fmul_num. f_equal. field.
Qed.

(** C4, counterexample to the claim as stated: on one throat of radius 1
    with theta = 90 and toroid radius -2/3 the argument sin(theta)/(1+r/R)
    has absolute value 2, and [purcell] returns normally, with the value 6. *)
Lemma purcell_out_of_domain_counterexample :
  let w := one_throat (Num 1) (Num 90) (Num 2) in
  Rabs (sin (90 * (PI / 180)) / (1 + 1 / (-2 / 3))) > 1 /\
  purcell (Num (-2 / 3)) "throat.surface_tension" "throat.contact_angle"
          "throat.diameter" w
  = (Ok [Num 6], w).
Proof.
  intros w. split.
  - rewrite radians_90, sin_PI2.
    replace (1 / (1 + 1 / (-2 / 3))) with (-2) by (field; lra).
    rewrite Rabs_left; lra.
  - unfold w. rewrite purcell_one_throat, half_num.
    replace (2 / 2) with 1 by lra. rewrite purcell_elem_out_of_domain. reflexivity.
Qed.

(** C4 (as amended).  [purcell] raises no error when the argument of the
    arcsine of the stated formula leaves [-1, 1]: whenever the surface
    tension, contact angle and diameter arrays are present, the diameter
    array is not empty, the lengths match and the indices of the scope are
    valid, it returns normally, with one value per throat in scope. *)
Theorem purcell_returns_normally (R : float) (st ca d : string) (w : world)
    (sigma theta diam : ndarray) :
  resolved st d w = Ok sigma -> resolved ca d w = Ok theta ->
  net_props (network w) !! d = Some diam ->
  diam <> [] ->
  length sigma = length diam -> length theta = length diam ->
  Forall (fun i => (i < length diam)%nat) (scope_of (split_head d) w) ->
  exists v,
    purcell R st ca d w = (Ok v, w) /\
    length v = length (scope_of (split_head d) w).
Proof.
  intros Hs Ht Hd Hne Hls Hlt Hidx.
  destruct (handle_zeros_max_ok ((fun x => fdiv x (Num 2)) <$> diam))
    as (r & Hr & Hlr).
  { destruct diam; [congruence | discriminate]. }
  rewrite length_fmap in Hlr.
  destruct (purcell_run R st ca d w sigma theta diam r)
    as (full & Hrun & Hlen & _); try assumption; try congruence.
  destruct (take_indices_ok full (scope_of (split_head d) w)) as [v Hv].
  { rewrite Hlen, Hlr. exact Hidx. }
  exists v. rewrite Hrun, Hv. split; [reflexivity |].
  apply take_indices_spec in Hv as [Hl _]. exact Hl.
Qed.

Lemma purcell_returns_normally_witness :
  let w := one_throat (Num 1) (Num 90) (Num 2) in
  Rabs (sin (90 * (PI / 180)) / (1 + 2 / 2 / (-2 / 3))) > 1 /\
  exists v,
    purcell (Num (-2 / 3)) "throat.surface_tension" "throat.contact_angle"
            "throat.diameter" w = (Ok v, w) /\
    length v = 1%nat.
Proof.
  intros w. split.
  - rewrite radians_90, sin_PI2.
    replace (1 / (1 + 2 / 2 / (-2 / 3))) with (-2) by (field; lra).
    rewrite Rabs_left; lra.
  - destruct (purcell_returns_normally (Num (-2 / 3)) "throat.surface_tension"
                "throat.contact_angle" "throat.diameter" w
                [Num 1] [Num 90] [Num 2])
      as (v & Hrun & Hlen).
    + reflexivity.
    + reflexivity.
    + reflexivity.
    + discriminate.
    + reflexivity.
    + reflexivity.
    + repeat constructor.
    + exists v. split; [exact Hrun | exact Hlen].
Defined.

(* --------------------------------------------------------------------- *)
(** *** The formula of the code against the formula of the specification *)

Lemma cos_lt_1 (x : R) : 0 < x -> x < 2 * PI -> cos x < 1.
Proof.
  intros H0 H1. replace x with (2 * (x / 2)) by lra. rewrite cos_2a_sin.
  assert (Hs : 0 < sin (x / 2)) by (apply sin_gt_0; lra).
  nra.
Qed.

(** On radius 1, toroid radius 1, sigma = 1 and theta = 180 the code takes
    the arcsine of sin(pi/2): alpha = pi/2 (degrees). *)
Lemma purcell_elem_at_180 :
  let c := cos (PI / 2 * (PI / 180)) in
  purcell_elem (Num 1) (Num 1) (Num 180) (Num 1) = Num (2 * c / (2 - c)) /\ c < 1.
Proof.
  intros c.
  assert (Hc : c < 1).
  { pose proof PI_RGT_0. pose proof PI_4. apply cos_lt_1; nra. }
  split; [|exact Hc].
  unfold purcell_elem, fradians. float_num.
  assert (Hq : 180 * (PI / 180) / (1 + 1 / 1) = PI / 2) by (field; lra).
  rewrite Hq, sin_PI2, asin_1.
  replace ((180 - (180 - 180 + PI / 2)) * (PI / 180))
    with (PI / 2 * (PI / 180) + PI - 2 * (PI / 2 * (PI / 180))) by lra.
  replace ((180 - 180 + PI / 2) * (PI / 180)) with (PI / 2 * (PI / 180)) by lra.
  fold c.
  assert (Hn : cos (PI / 2 * (PI / 180) + PI - 2 * (PI / 2 * (PI / 180))) = - c).
  { replace (PI / 2 * (PI / 180) + PI - 2 * (PI / 2 * (PI / 180)))
      with (- (PI / 2 * (PI / 180)) + PI) by lra.
    rewrite neg_cos, cos_neg. reflexivity. }
  rewrite Hn. rewrite fdiv_num by lra. rewrite fmul_num. f_equal. field. lra.
Qed.

(** There the formula of the specification takes the arcsine of sin(pi)/2:
    alpha = 0 and the entry pressure is that of Washburn, 2. *)
Lemma purcell_spec_at_180 :
  purcell_spec (Num 1) (Num 1) (Num 180) (Num 1) = Num 2.
Proof.
  unfold purcell_spec, fradians. float_num.
  rewrite radians_180, sin_PI.
  replace (0 / (1 + 1 / 1)) with 0 by (field; lra).
  rewrite farcsin_num by lra. rewrite asin_0. float_num.
  replace (PI - (180 - 180 + 0) * (PI / 180)) with PI by lra.
  replace ((180 - 180 + 0) * (PI / 180)) with 0 by lra.
  rewrite cos_PI, cos_0. rewrite fdiv_num by lra. f_equal. field.
Qed.

(** C1.  [purcell] applies the arcsine to sin(theta_rad / (1 + r/R)), not to
    sin(theta_rad) / (1 + r/R): on one throat of radius 1 with sigma = 1,
    theta = 180 and toroid radius 1 it returns 2c/(2-c) with
    c = cos(pi^2/360) < 1, where the stated formula gives 2. *)
Theorem purcell_differs_from_stated_formula :
  let w := one_throat (Num 1) (Num 180) (Num 2) in
  exists pc : R,
    purcell (Num 1) "throat.surface_tension" "throat.contact_angle"
            "throat.diameter" w = (Ok [Num pc], w) /\
    purcell_spec (Num 1) (Num 1) (Num 180) (Num 1) = Num 2 /\
    pc < 2.
Proof.
  intros w. destruct purcell_elem_at_180 as [Hcode Hc].
  eexists. split; [|split; [apply purcell_spec_at_180 |]].
  - unfold w. rewrite purcell_one_throat, half_num.
    replace (2 / 2) with 1 by lra. rewrite Hcode. reflexivity.
  - simpl. set (c := cos (PI / 2 * (PI / 180))) in *.
    assert (H2 : 0 < 2 - c) by lra.
    apply (Rmult_lt_reg_r (2 - c)); [exact H2 |].
    replace (2 * c / (2 - c) * (2 - c)) with (2 * c) by (field; lra). lra.
Qed.

(* ===================================================================== *)
(** ** Kelvin *)
(* ===================================================================== *)

(** [kelvin] returns the array it computed over all elements, unsliced. *)
Lemma kelvin_run (d t vp mw rho st : string) (w : world)
    (T P0 Mw Rho gamma diam : ndarray) :
  phase_props (phase w) !! t = Some T ->
  phase_props (phase w) !! vp = Some P0 ->
  phase_props (phase w) !! mw = Some Mw ->
  phase_props (phase w) !! rho = Some Rho ->
  phase_props (phase w) !! st = Some gamma ->
  net_props (network w) !! d = Some diam ->
  diam <> [] ->
  length T = length diam -> length P0 = length diam ->
  length Mw = length diam -> length Rho = length diam ->
  length gamma = length diam ->
  exists v, kelvin d t vp mw rho st w = (Ok v, w) /\ length v = length diam.
Proof.
  intros HT HP HM HR HG HD Hne HlT HlP HlM HlR HlG.
  destruct (handle_zeros_max_ok ((fun x => fdiv x (Num 2)) <$> diam)) as (r & Hr & Hlr).
  { destruct diam; [congruence | discriminate]. }
  rewrite length_fmap in Hlr.
  unfold kelvin, bind, phase_getitem, network_getitem, getitem, lift, ret.
  rewrite HT, HP, HM, HR, HG, HD, Hr.
  rewrite broadcast_same_length by solve_lengths.
  rewrite broadcast_same_length by solve_lengths.
  rewrite broadcast_same_length by solve_lengths.
  rewrite broadcast_same_length by solve_lengths.
  rewrite broadcast_same_length by solve_lengths.
  eexists. split; [reflexivity | solve_lengths].
Qed.

(** C5.  Not every model returns the entries of its scope only: [kelvin]
    returns the whole array.  With two pores of which the physics governs
    one, the result has length 2. *)
Theorem kelvin_returns_full_array :
  exists v,
    kelvin "pore.diameter" "pore.temperature" "pore.vapor_pressure"
           "pore.molecular_weight" "pore.density" "pore.surface_tension"
           kelvin_world = (Ok v, kelvin_world) /\
    length v = 2%nat /\
    length (scope_of "pore" kelvin_world) = 1%nat.
Proof.
  destruct (kelvin_run "pore.diameter" "pore.temperature" "pore.vapor_pressure"
              "pore.molecular_weight" "pore.density" "pore.surface_tension"
              kelvin_world
              [Num 300; Num 300] [Num 3000; Num 3000]
              [Num (18 / 1000); Num (18 / 1000)] [Num 1000; Num 1000]
              [Num (72 / 1000); Num (72 / 1000)] [Num 2; Num 2])
    as (v & Hrun & Hlen); try reflexivity; [discriminate |].
  exists v. split; [exact Hrun |]. split; [exact Hlen | reflexivity].
Qed.

(* ===================================================================== *)
(** ** Reduction of throat values to pores *)
(* ===================================================================== *)

Lemma elem_of_where_from {A} (p : A -> bool) (l : list A) (k j : nat) :
  j ∈ where_from p l k <->
  (k <= j)%nat /\ exists x, l !! (j - k)%nat = Some x /\ p x = true.
Proof.
  revert k. induction l as [|y l IH]; intros k; simpl.
  - split; [intros H; inversion H | intros (_ & x & Hx & _); discriminate].
  - assert (Hrec : j ∈ where_from p l (S k) <->
              (k < j)%nat /\ exists x, (y :: l) !! (j - k)%nat = Some x /\ p x = true).
    { rewrite IH. split.
      - intros (Hk & x & Hx & Hp). split; [lia |]. exists x.
        replace (j - k)%nat with (S (j - S k)) by lia. auto.
      - intros (Hk & x & Hx & Hp). split; [lia |]. exists x.
        replace (j - k)%nat with (S (j - S k)) in Hx by lia. auto. }
    destruct (p y) eqn:Hy.
    + rewrite elem_of_cons, Hrec. split.
      * intros [->|(Hk & H)]; [|split; [lia | exact H]].
        split; [lia |]. exists y. rewrite Nat.sub_diag. auto.
      * intros (Hk & x & Hx & Hp).
        destruct (decide (j = k)) as [->|Hne]; [left; reflexivity |].
        right. split; [lia |]. eauto.
    + rewrite Hrec. split.
      * intros (Hk & H). split; [lia | exact H].
      * intros (Hk & x & Hx & Hp). split; [|eauto].
        destruct (decide (j = k)) as [->|Hne]; [|lia].
        rewrite Nat.sub_diag in Hx. simpl in Hx. congruence.
Qed.

Lemma elem_of_where {A} (p : A -> bool) (l : list A) (j : nat) :
  j ∈ where_ p l <-> exists x, l !! j = Some x /\ p x = true.
Proof.
  unfold where_. rewrite elem_of_where_from, Nat.sub_0_r. split.
  - intros [_ H]. exact H.
  - intros H. split; [lia | exact H].
Qed.

(** The throats [find_neighbor_throats] lists are those with an endpoint at
    the pore. *)
Lemma find_neighbor_throats_spec (net : Network) (i t : nat) :
  t ∈ find_neighbor_throats net i <->
  exists a b, conns net !! t = Some (a, b) /\ (a = i \/ b = i).
Proof.
  unfold find_neighbor_throats. rewrite elem_of_where. split.
  - intros ([a b] & Ht & Hp). exists a, b. split; [exact Ht |].
    simpl in Hp. apply orb_true_iff in Hp as [H|H]; apply Nat.eqb_eq in H; auto.
  - intros (a & b & Ht & Hab). exists (a, b). split; [exact Ht |].
    simpl. apply orb_true_iff. destruct Hab as [->| ->];
      [left | right]; apply Nat.eqb_refl.
Qed.

Lemma functions_unknown (operator : string) :
  operator <> "min"%string -> operator <> "max"%string -> operator <> "mean"%string ->
  functions !! operator = None.
Proof.
  intros H1 H2 H3. unfold functions.
  rewrite !lookup_insert_ne by congruence. apply lookup_empty.
Qed.

(** After the defaulting of the operator the dictionary holds [reduce]. *)
Lemma functions_selected (operator : string) :
  exists f,
    functions !! (match functions !! operator with
                  | None => "mean"%string
                  | Some _ => operator
                  end) = Some f /\
    forall sel, f sel = reduce operator sel.
Proof.
  unfold reduce.
  destruct (decide (operator = "min"%string)) as [->|H1].
  { exists array_min. split; reflexivity. }
  destruct (decide (operator = "max"%string)) as [->|H2].
  { exists array_max. split; reflexivity. }
  destruct (decide (operator = "mean"%string)) as [->|H3].
  { exists array_mean. split; reflexivity. }
  rewrite (functions_unknown operator H1 H2 H3).
  exists array_mean. split; reflexivity.
Qed.

(** The loop of [from_throat] from pore [k] on, for [n] pores. *)
Lemma from_throat_loop (cp operator : string) (f : ndarray -> result float)
    (w : world) (pc : ndarray) (red : nat -> result float) (n k : nat)
    (value : ndarray) :
  phys_props (physics w) !! cp = Some pc ->
  functions !! operator = Some f ->
  (forall i, red i = let? sel := take_indices pc
                                   (find_neighbor_throats (network w) i) in f sel)%res ->
  (forall i, (k <= i < k + n)%nat -> exists x, red i = Ok x) ->
  (k + n <= length value)%nat ->
  exists v,
    for_each (seq k n)
      (fun i value =>
         let* net := get_network in
         let ts := find_neighbor_throats net i in
         let* pc := physics_getitem cp in
         let* sel := lift (take_indices pc ts) in
         let* x := lift (match functions !! operator with
                         | Some f => f sel
                         | None => Raise (KeyError operator)
                         end) in
         ret (<[i := x]> value))%model value w = (Ok v, w) /\
    length v = length value /\
    forall i,
      ((k <= i < k + n)%nat -> exists x, red i = Ok x /\ v !! i = Some x) /\
      ((i < k \/ k + n <= i)%nat -> v !! i = value !! i).
Proof.
  intros Hpc Hf Hred. revert k value. induction n as [|n IH]; intros k value Hok Hlen.
  - exists value. simpl. split; [reflexivity |]. split; [reflexivity |].
    intros i. split; [lia | reflexivity].
  - destruct (Hok k ltac:(lia)) as [x Hx].
    destruct (IH (S k) (<[k := x]> value)) as (v & Hrun & Hl & Hv).
    { intros i Hi. apply Hok. lia. }
    { rewrite length_insert. lia. }
    exists v. split; [|split].
    + simpl for_each.
      match goal with |- bind ?b _ w = _ =>
        assert (Hbody : b w = (Ok (<[k := x]> value), w)) end.
      { rewrite Hred in Hx. unfold rbind in Hx.
        unfold bind, get_network, physics_getitem, getitem, lift, ret.
        rewrite Hpc, Hf.
        destruct (take_indices pc (find_neighbor_throats (network w) k)) as [sel|e];
          [|discriminate].
        rewrite Hx. reflexivity. }
      rewrite (bind_run _ _ w w _ Hbody). exact Hrun.
    + rewrite Hl. apply length_insert.
    + intros i. split.
      * intros Hi. destruct (decide (i = k)) as [->|Hne].
        -- exists x. split; [exact Hx |].
           destruct (Hv k) as [_ Hout]. rewrite Hout by lia.
           apply list_lookup_insert_eq. lia.
        -- destruct (Hv i) as [Hin _]. apply Hin. lia.
      * intros Hi. destruct (Hv i) as [_ Hout]. rewrite Hout by lia.
        apply list_lookup_insert_ne. lia.
Qed.

(** [foldl fmin2] over finite values is finite, bounds them from below and is
    one of them. *)
Lemma foldl_fmin2_num (l : list R) (x : R) :
  exists m, foldl fmin2 (Num x) (Num <$> l) = Num m /\ m <= x /\
            Forall (fun y => m <= y) l /\ (m = x \/ m ∈ l).
Proof.
  revert x. induction l as [|y l IH]; intros x; simpl.
  - exists x. repeat split; [lra | constructor | auto].
  - rewrite fmin2_num. destruct (IH (Rmin x y)) as (m & Hm & Hle & Hall & Hin).
    exists m. split; [exact Hm |].
    pose proof (Rmin_l x y). pose proof (Rmin_r x y).
    split; [lra |]. split; [constructor; [lra | exact Hall] |].
    destruct Hin as [->|Hin].
    + unfold Rmin. destruct (Rle_dec x y); [left; reflexivity | right; left].
    + right; right; exact Hin.
Qed.

(** [array_min] and [array_max] of finite values are the least and the
    greatest of them. *)
Lemma array_min_is_minimum (l : list R) :
  l <> [] ->
  exists m, array_min (Num <$> l) = Ok (Num m) /\ m ∈ l /\ Forall (fun y => m <= y) l.
Proof.
  destruct l as [|x l]; [congruence | intros _].
  destruct (foldl_fmin2_num l x) as (m & Hm & Hle & Hall & Hin).
  exists m. rewrite fmap_cons. unfold array_min. rewrite Hm.
  split; [reflexivity |]. split.
  - destruct Hin as [->|Hin]; [left | right; exact Hin].
  - constructor; assumption.
Qed.

Lemma array_max_is_maximum (l : list R) :
  l <> [] ->
  exists m, array_max (Num <$> l) = Ok (Num m) /\ m ∈ l /\ Forall (fun y => y <= m) l.
Proof.
  destruct l as [|x l]; [congruence | intros _].
  destruct (foldl_fmax2_num l x) as (m & Hm & Hle & Hall & Hin).
  exists m. rewrite fmap_cons. unfold array_max. rewrite Hm.
  split; [reflexivity |]. split.
  - destruct Hin as [->|Hin]; [left | right; exact Hin].
  - constructor; assumption.
Qed.

Lemma foldl_fadd_num (l : list R) (a : R) :
  foldl fadd (Num a) (Num <$> l) = Num (a + foldr Rplus 0 l).
Proof.
  revert a. induction l as [|y l IH]; intros a; simpl.
  - f_equal. lra.
  - rewrite IH. f_equal. lra.
Qed.

(** [array_mean] of finite values is their sum over their number. *)
Lemma array_mean_is_mean (l : list R) :
  l <> [] ->
  array_mean (Num <$> l) = Ok (Num (foldr Rplus 0 l / INR (length l))).
Proof.
  intros Hne. unfold array_mean, array_sum.
  rewrite foldl_fadd_num, length_fmap, fdiv_num.
  - do 2 f_equal. lra.
  - apply not_0_INR. destruct l; [congruence | discriminate].
Qed.

Lemma reduce_ok (operator : string) (sel : ndarray) :
  sel <> [] -> exists x, reduce operator sel = Ok x.
Proof.
  intros Hne. unfold reduce, array_min, array_max, array_mean.
  destruct sel; [congruence |].
  destruct (decide _); [eauto |]. destruct (decide _); eauto.
Qed.

Lemma pore_reduction_ok (operator : string) (net : Network) (pc : ndarray) (i : nat) :
  length pc = Nt net -> find_neighbor_throats net i <> [] ->
  exists x, pore_reduction operator net pc i = Ok x.
Proof.
  intros Hlen Hne. unfold pore_reduction.
  destruct (take_indices_ok pc (find_neighbor_throats net i)) as [sel Hsel].
  { apply Forall_forall. intros t Ht.
    apply find_neighbor_throats_spec in Ht as (a & b & Ht & _).
    rewrite Hlen. unfold Nt. eapply lookup_lt_Some, Ht. }
  rewrite Hsel. simpl. apply reduce_ok.
  destruct (take_indices_spec _ _ _ Hsel) as [Hl _].
  destruct sel; [|discriminate].
  destruct (find_neighbor_throats net i); [congruence | discriminate].
Qed.

(** The loop of [from_throat] under a reduction that raises [ValueError] on
    the empty selection: a pore without throats stops it. *)
Lemma from_throat_loop_isolated (cp operator : string)
    (f : ndarray -> result float) (w : world) (pc : ndarray) (i0 n k : nat)
    (value : ndarray) :
  phys_props (physics w) !! cp = Some pc ->
  functions !! operator = Some f ->
  f [] = Raise ValueError ->
  (forall sel, sel <> [] -> exists x, f sel = Ok x) ->
  length pc = Nt (network w) ->
  (k <= i0 < k + n)%nat ->
  find_neighbor_throats (network w) i0 = [] ->
  for_each (seq k n)
    (fun i value =>
       let* net := get_network in
       let ts := find_neighbor_throats net i in
       let* pc := physics_getitem cp in
       let* sel := lift (take_indices pc ts) in
       let* x := lift (match functions !! operator with
                       | Some f => f sel
                       | None => Raise (KeyError operator)
                       end) in
       ret (<[i := x]> value))%model value w = (Raise ValueError, w).
Proof.
  intros Hpc Hf Hempty Hne Hlen Hi0 Hiso.
  revert k value Hi0. induction n as [|n IH]; intros k value Hi0; [lia |].
  simpl for_each.
  destruct (take_indices_ok pc (find_neighbor_throats (network w) k)) as [sel Hsel].
  { apply Forall_forall. intros t Ht.
    apply find_neighbor_throats_spec in Ht as (a & b & Ht & _).
    rewrite Hlen. unfold Nt. eapply lookup_lt_Some, Ht. }
  destruct (decide (sel = [])) as [->|Hsel_ne].
  - match goal with |- bind ?b _ w = _ =>
      assert (Hbody : b w = (Raise ValueError, w)) end.
    { unfold bind, get_network, physics_getitem, getitem, lift, ret.
      rewrite Hpc, Hf, Hsel, Hempty. reflexivity. }
    unfold bind at 1. rewrite Hbody. reflexivity.
  - destruct (Hne sel Hsel_ne) as [x Hx].
    match goal with |- bind ?b _ w = _ =>
      assert (Hbody : b w = (Ok (<[k := x]> value), w)) end.
    { unfold bind, get_network, physics_getitem, getitem, lift, ret.
      rewrite Hpc, Hf, Hsel, Hx. reflexivity. }
    rewrite (bind_run _ _ w w _ Hbody). apply IH.
    destruct (decide (i0 = k)) as [->|Hneq]; [|lia].
    rewrite Hiso in Hsel. simpl in Hsel. congruence.
Qed.

(** C7, as stated, fails on a network with a pore that no throat reaches:
    with two pores joined by a throat of capillary pressure 5 and a third,
    isolated pore, [from_throat] with operator 'min' returns no array at
    all; it raises [ValueError] at the isolated pore. *)
Lemma from_throat_isolated_pore_counterexample :
  from_throat "throat.capillary_pressure" "min" pair_and_isolated_pore
  = (Raise ValueError, pair_and_isolated_pore) /\
  ~ exists v, from_throat "throat.capillary_pressure" "min" pair_and_isolated_pore
              = (Ok v, pair_and_isolated_pore).
Proof.
  assert (Hrun : from_throat "throat.capillary_pressure" "min" pair_and_isolated_pore
                 = (Raise ValueError, pair_and_isolated_pore)).
  { unfold from_throat. unfold bind at 1, network_Np.
    apply (from_throat_loop_isolated "throat.capillary_pressure" _ array_min
             pair_and_isolated_pore [Num 5] 2%nat); try reflexivity.
    - intros [|x sel] Hne; [congruence | simpl; eauto].
    - simpl. lia. }
  split; [exact Hrun |].
  intros [v Hv]. rewrite Hrun in Hv. discriminate.
Qed.

Lemma NoDup_where_from {A} (p : A -> bool) (l : list A) (k : nat) :
  NoDup (where_from p l k).
Proof.
  revert k. induction l as [|x l IH]; intros k; simpl; [constructor |].
  destruct (p x); [|apply IH].
  constructor; [|apply IH].
  rewrite elem_of_where_from. intros [Hk _]. lia.
Qed.

Lemma NoDup_find_neighbor_throats (net : Network) (i : nat) :
  NoDup (find_neighbor_throats net i).
Proof. apply NoDup_where_from. Qed.

(** The finite values selected for a pore, as real numbers. *)
Lemma incident_values (net : Network) (ps : list R) (i : nat) :
  length ps = Nt net ->
  exists vals,
    take_indices (Num <$> ps) (find_neighbor_throats net i) = Ok (Num <$> vals) /\
    Forall2 (fun t y => ps !! t = Some y) (find_neighbor_throats net i) vals.
Proof.
  intros Hlen.
  assert (Hvalid : Forall (fun t => (t < length ps)%nat) (find_neighbor_throats net i)).
  { apply Forall_forall. intros t Ht.
    apply find_neighbor_throats_spec in Ht as (a & b & Ht & _).
    rewrite Hlen. unfold Nt. eapply lookup_lt_Some, Ht. }
  exists ((fun t => default 0 (ps !! t)) <$> find_neighbor_throats net i). split.
  - rewrite take_indices_fmap by (rewrite length_fmap; exact Hvalid).
    rewrite <- list_fmap_compose. f_equal.
    apply list_fmap_ext. intros k t Hk. unfold compose.
    rewrite Forall_forall in Hvalid.
    destruct (lookup_lt_is_Some_2 ps t) as [y Hy].
    { apply Hvalid. eapply list_elem_of_lookup_2, Hk. }
    rewrite list_lookup_fmap, Hy. reflexivity.
  - apply Forall2_fmap_r, Forall_Forall2_diag.
    eapply Forall_impl; [exact Hvalid |]. intros t Ht.
    destruct (lookup_lt_is_Some_2 ps t Ht) as [y Hy]. simpl. rewrite !Hy. reflexivity.
Qed.

(** C7 (as amended).  On a network in which every pore has an incident throat
    and the throats carry finite capillary pressures, [from_throat] returns
    for every pore the least of the pressures of its incident throats under
    'min', the greatest under 'max', and their sum over their number under
    every other operator; an operator other than 'min', 'max' and 'mean'
    gives what 'mean' gives. *)
Theorem from_throat_reduces (cp operator : string) (w : world) (ps : list R) :
  phys_props (physics w) !! cp = Some (Num <$> ps) ->
  length ps = Nt (network w) ->
  (forall i, (i < Np (network w))%nat -> exists t, incident (network w) t i) ->
  (exists v,
     from_throat cp operator w = (Ok v, w) /\
     length v = Np (network w) /\
     forall i, (i < Np (network w))%nat ->
       exists x,
         v !! i = Some (Num x) /\
         (operator = "min"%string ->
          (exists t, incident (network w) t i /\ ps !! t = Some x) /\
          forall t y, incident (network w) t i -> ps !! t = Some y -> x <= y) /\
         (operator = "max"%string ->
          (exists t, incident (network w) t i /\ ps !! t = Some x) /\
          forall t y, incident (network w) t i -> ps !! t = Some y -> y <= x) /\
         (operator <> "min"%string -> operator <> "max"%string ->
          exists ts vals,
            NoDup ts /\ (forall t, t ∈ ts <-> incident (network w) t i) /\
            Forall2 (fun t y => ps !! t = Some y) ts vals /\
            x = foldr Rplus 0 vals / INR (length vals))) /\
  (operator <> "min"%string -> operator <> "max"%string ->
   operator <> "mean"%string ->
   from_throat cp operator w = from_throat cp "mean" w).
Proof.
  intros Hpc Hlen Hnb. split.
  2: { intros H1 H2 H3. unfold from_throat.
       rewrite (functions_unknown operator H1 H2 H3). reflexivity. }
  assert (Hne : forall i, (i < Np (network w))%nat ->
                          find_neighbor_throats (network w) i <> []).
  { intros i Hi Heq. destruct (Hnb i Hi) as [t Ht].
    apply find_neighbor_throats_spec in Ht. rewrite Heq in Ht. inversion Ht. }
  destruct (functions_selected operator) as (f & Hf & Hfr).
  destruct (from_throat_loop cp _ f w (Num <$> ps)
              (pore_reduction operator (network w) (Num <$> ps))
              (Np (network w)) 0 (replicate (Np (network w)) (Num 0)) Hpc Hf)
    as (v & Hrun & Hl & Hv).
  { intros i. unfold pore_reduction, rbind.
    destruct (take_indices _ _); [symmetry; apply Hfr | reflexivity]. }
  { intros i Hi. apply pore_reduction_ok;
      [rewrite length_fmap; exact Hlen | apply Hne; lia]. }
  { rewrite length_replicate. lia. }
  exists v. split; [|split].
  { unfold from_throat. unfold bind at 1, network_Np. exact Hrun. }
  { rewrite Hl. apply length_replicate. }
  intros i Hi. destruct (Hv i) as [Hin _].
  destruct Hin as (x & Hx & Hvi); [lia |].
  destruct (incident_values (network w) ps i Hlen) as (vals & Hsel & Hvals).
  unfold pore_reduction in Hx. rewrite Hsel in Hx. simpl in Hx.
  assert (Hvne : vals <> []).
  { intros ->. apply Forall2_length in Hvals.
    specialize (Hne i Hi). destruct (find_neighbor_throats (network w) i);
      [congruence | discriminate]. }
  assert (Hmem : forall y, y ∈ vals ->
            exists t, incident (network w) t i /\ ps !! t = Some y).
  { intros y Hy. apply list_elem_of_lookup in Hy as [k Hk].
    destruct (Forall2_lookup_r _ _ _ _ _ Hvals Hk) as (t & Ht & Hty).
    exists t. split; [|exact Hty].
    apply find_neighbor_throats_spec. eapply list_elem_of_lookup_2, Ht. }
  assert (Hall : forall t y, incident (network w) t i -> ps !! t = Some y -> y ∈ vals).
  { intros t y Ht Hy. apply find_neighbor_throats_spec in Ht.
    apply list_elem_of_lookup in Ht as [k Hk].
    destruct (Forall2_lookup_l _ _ _ _ _ Hvals Hk) as (y' & Hy' & Hty).
    assert (y' = y) by congruence. subst y'.
    eapply list_elem_of_lookup_2, Hy'. }
  unfold reduce in Hx.
  destruct (decide (operator = "min"%string)) as [Hmin|Hmin].
  - destruct (array_min_is_minimum vals Hvne) as (m & Hm & Hmin_in & Hmin_le).
    rewrite Hm in Hx. injection Hx as <-.
    exists m. split; [exact Hvi |]. split; [|split].
    + intros _. split; [apply Hmem, Hmin_in |].
      intros t y Ht Hy. rewrite Forall_forall in Hmin_le.
      apply Hmin_le. eapply Hall; eassumption.
    + intros Hmax. subst operator. discriminate.
    + intros Hnot. contradiction.
  - destruct (decide (operator = "max"%string)) as [Hmax|Hmax].
    + destruct (array_max_is_maximum vals Hvne) as (m & Hm & Hmax_in & Hmax_le).
      rewrite Hm in Hx. injection Hx as <-.
      exists m. split; [exact Hvi |]. split; [|split].
      * intros Heq. contradiction.
      * intros _. split; [apply Hmem, Hmax_in |].
        intros t y Ht Hy. rewrite Forall_forall in Hmax_le.
        apply Hmax_le. eapply Hall; eassumption.
      * intros _ Hnot. contradiction.
    + rewrite (array_mean_is_mean vals Hvne) in Hx. injection Hx as <-.
      eexists. split; [exact Hvi |]. split; [|split].
      * intros Heq. contradiction.
      * intros Heq. contradiction.
      * intros _ _. exists (find_neighbor_throats (network w) i), vals.
        split; [apply NoDup_find_neighbor_throats |].
        split; [intros t; apply find_neighbor_throats_spec |].
        split; [exact Hvals | reflexivity].
Qed.

Lemma from_throat_reduces_witness :
  exists v,
    from_throat "throat.capillary_pressure" "min" chain_pressures
    = (Ok v, chain_pressures) /\
    v !! 1%nat = Some (Num 1).
Proof.
  destruct (from_throat_reduces "throat.capillary_pressure" "min"
              chain_pressures [1; 3])
    as [(v & Hrun & _ & Hv) _].
  - reflexivity.
  - reflexivity.
  - intros i Hi. simpl in Hi.
    destruct i as [|[|[|i]]]; [exists 0%nat | exists 0%nat | exists 1%nat | lia];
      eexists _, _; (split; [reflexivity | auto]).
  - exists v. split; [exact Hrun |].
    destruct (Hv 1%nat) as (x & Hvx & Hmin & _); [simpl; lia |].
    destruct (Hmin eq_refl) as [(t & Hinc & Hx) Hle].
    assert (Hx1 : x <= 1).
    { apply (Hle 0%nat 1); [|reflexivity].
      eexists _, _. split; [reflexivity | auto]. }
    assert (Hx13 : x = 1 \/ x = 3).
    { destruct t as [|[|t]].
      - left. change (Some 1 = Some x) in Hx. congruence.
      - right. change (Some 3 = Some x) in Hx. congruence.
      - change (@None R = Some x) in Hx. discriminate. }
    destruct Hx13 as [-> | ->]; [exact Hvx | lra].
Defined.

(* ===================================================================== *)
(** ** Static pressure *)
(* ===================================================================== *)

Lemma take_rows_fmap (net : Network) (idx : list nat) :
  Forall (fun i => (i < length (coords net))%nat) idx ->
  take_rows (coords net) idx = Ok (row_at net <$> idx).
Proof.
  induction 1 as [|i idx Hi _ IH]; simpl; [reflexivity |].
  destruct (lookup_lt_is_Some_2 (coords net) i Hi) as [x Hx].
  unfold row_at at 1. rewrite Hx, IH. reflexivity.
Qed.

Lemma vec3_lookup (k : nat) (v : vec3) :
  (k < 3)%nat -> vec3_to_list v !! k = Some (vcomp k v).
Proof.
  intros Hk. unfold vcomp.
  destruct k as [|[|[|k]]]; simpl; try reflexivity. lia.
Qed.

Lemma vcomp_zip (f : float -> float -> float) (k : nat) (u v : vec3) :
  (k < 3)%nat -> vcomp k (vec3_zip f u v) = f (vcomp k u) (vcomp k v).
Proof.
  intros Hk. destruct k as [|[|[|k]]]; try reflexivity. lia.
Qed.

Lemma select_columns_single (rows : list vec3) (k : nat) :
  (k < 3)%nat -> select_columns rows [k] = vcomp k <$> rows.
Proof.
  intros Hk. unfold select_columns.
  induction rows as [|row rows IH]; [reflexivity |].
  rewrite fmap_cons, <- IH. cbn [flat_map omap list_omap].
  rewrite (vec3_lookup k row Hk). reflexivity.
Qed.

(** Storing [F p] at every index [p] of a list of valid indices. *)
Lemma assign_seq_fmap (F : nat -> float) (idx : list nat) (a : ndarray) :
  Forall (fun i => (i < length a)%nat) idx ->
  exists v,
    assign_seq a idx (F <$> idx) = Ok v /\ length v = length a /\
    forall p, (p ∈ idx -> v !! p = Some (F p)) /\ (p ∉ idx -> v !! p = a !! p).
Proof.
  revert a. induction idx as [|i idx IH]; intros a Hidx; simpl.
  - exists a. split; [reflexivity |]. split; [reflexivity |].
    intros p. split; [intros H; inversion H | reflexivity].
  - apply Forall_cons in Hidx as [Hi Hidx].
    destruct (decide (i < length a)%nat); [|contradiction].
    destruct (IH (<[i := F i]> a)) as (v & Hv & Hl & Hp).
    { rewrite length_insert. exact Hidx. }
    exists v. split; [exact Hv |]. split; [rewrite Hl; apply length_insert |].
    intros p. destruct (Hp p) as [Hin Hout]. split.
    + intros Hpi. destruct (decide (p ∈ idx)) as [Hpin|Hpout]; [auto |].
      apply elem_of_cons in Hpi as [->|Hpi]; [|contradiction].
      rewrite (Hout Hpout). apply list_lookup_insert_eq. exact Hi.
    + intros Hpi. apply not_elem_of_cons in Hpi as [Hne Hpi].
      rewrite (Hout Hpi). apply list_lookup_insert_ne. congruence.
Qed.

Lemma elem_of_cluster_pores (clusters : list Z) (c : Z) (p : nat) :
  p ∈ cluster_pores clusters c <-> clusters !! p = Some c.
Proof.
  unfold cluster_pores. rewrite elem_of_where. split.
  - intros (l & Hl & Heq). apply Z.eqb_eq in Heq. congruence.
  - intros H. exists c. split; [exact H | apply Z.eqb_refl].
Qed.

(** One turn of the loop: the pores of cluster [c] receive their pressure,
    the others keep what they had. *)
Lemma static_pressure_cluster_run (net : Network) (rho : ndarray) (g : vec3)
    (k : nat) (clusters : list Z) (c : Z) (acc : ndarray) (w : world) :
  length (coords net) = length clusters ->
  length rho = length clusters ->
  length acc = length clusters ->
  where_ (fun x => fltb (Num 0) x) (vec3_to_list g) = [k] ->
  c ∈ clusters ->
  exists v,
    static_pressure_cluster net rho g clusters c acc w = (Ok v, w) /\
    length v = length acc /\
    forall p,
      (clusters !! p = Some c ->
       v !! p = Some (pressure_at net rho g k clusters c p)) /\
      (clusters !! p <> Some c -> v !! p = acc !! p).
Proof.
  intros Hlc Hlr Hla Hg Hc.
  assert (Hk : (k < 3)%nat).
  { assert (Hin : k ∈ where_ (fun x => fltb (Num 0) x) (vec3_to_list g))
      by (rewrite Hg; left).
    apply elem_of_where in Hin as (x & Hx & _).
    apply lookup_lt_Some in Hx. simpl in Hx. exact Hx. }
  assert (Hvalid : Forall (fun i => (i < length clusters)%nat) (cluster_pores clusters c)).
  { apply Forall_forall. intros p Hp. apply elem_of_cluster_pores in Hp.
    eapply lookup_lt_Some, Hp. }
  assert (Hne : cluster_pores clusters c <> []).
  { apply list_elem_of_lookup in Hc as [p Hp].
    apply elem_of_cluster_pores in Hp. intros Heq. rewrite Heq in Hp. inversion Hp. }
  unfold static_pressure_cluster. fold (cluster_pores clusters c).
  rewrite take_rows_fmap by (rewrite Hlc; exact Hvalid). rewrite bind_lift_Ok.
  destruct (amax0 (row_at net <$> cluster_pores clusters c)) as [tops|e] eqn:Htops.
  2: { destruct (cluster_pores clusters c); [congruence | discriminate]. }
  rewrite bind_lift_Ok, Hg.
  rewrite take_indices_fmap by (rewrite Hlr; exact Hvalid). rewrite bind_lift_Ok.
  rewrite select_columns_single by exact Hk.
  rewrite broadcast_same_length by solve_lengths. rewrite bind_lift_Ok.
  rewrite <- !list_fmap_compose, zip_with_fmap_l, zip_with_fmap_r, zip_with_diag.
  unfold lift.
  set (F := fun p : nat => _).
  destruct (assign_seq_fmap F (cluster_pores clusters c) acc) as (v & Hv & Hl & Hp).
  { rewrite Hla. exact Hvalid. }
  exists v. split; [|split; [exact Hl |]].
  - unfold assign_indices. rewrite length_fmap.
    destruct (decide _); [|congruence]. rewrite Hv. reflexivity.
  - intros p. destruct (Hp p) as [Hin Hout]. split.
    + intros Hpc. rewrite Hin by (apply elem_of_cluster_pores; exact Hpc).
      unfold F, pressure_at, compose. rewrite Htops. reflexivity.
    + intros Hpc. apply Hout. rewrite elem_of_cluster_pores. exact Hpc.
Qed.

(** The loop over a list of cluster labels that occur in the labelling. *)
Lemma static_pressure_loop (net : Network) (rho : ndarray) (g : vec3)
    (k : nat) (clusters : list Z) (L : list Z) (acc : ndarray) (w : world) :
  length (coords net) = length clusters ->
  length rho = length clusters ->
  length acc = length clusters ->
  where_ (fun x => fltb (Num 0) x) (vec3_to_list g) = [k] ->
  Forall (fun c => c ∈ clusters) L ->
  exists v,
    for_each L (static_pressure_cluster net rho g clusters) acc w = (Ok v, w) /\
    length v = length acc /\
    forall p c, clusters !! p = Some c ->
      (c ∈ L -> v !! p = Some (pressure_at net rho g k clusters c p)) /\
      (c ∉ L -> v !! p = acc !! p).
Proof.
  intros Hlc Hlr Hla Hg HL. revert acc Hla.
  induction HL as [|c L Hc HL IH]; intros acc Hla.
  - exists acc. split; [reflexivity |]. split; [reflexivity |].
    intros p c Hp. split; [intros H; inversion H | reflexivity].
  - destruct (static_pressure_cluster_run net rho g k clusters c acc w)
      as (v1 & Hrun1 & Hl1 & Hv1); try assumption.
    destruct (IH v1) as (v & Hrun & Hl & Hv); [congruence |].
    exists v. split; [|split; [congruence |]].
    + simpl. rewrite (bind_run _ _ w w _ Hrun1). exact Hrun.
    + intros p c' Hp. destruct (Hv p c' Hp) as [Hin Hout].
      destruct (Hv1 p) as [Hin1 Hout1]. split.
      * intros Hc'. destruct (decide (c' ∈ L)) as [HinL|HoutL]; [auto |].
        apply elem_of_cons in Hc' as [->|Hc']; [|contradiction].
        rewrite (Hout HoutL). apply Hin1, Hp.
      * intros Hc'. apply not_elem_of_cons in Hc' as [Hne Hc'].
        rewrite (Hout Hc'). apply Hout1. congruence.
Qed.

Lemma elem_of_insert_unique (x y : Z) (l : list Z) :
  y ∈ insert_unique x l <-> y = x \/ y ∈ l.
Proof.
  induction l as [|z l IH]; simpl.
  - rewrite list_elem_of_singleton. split; [auto | intros [H|H]; [exact H | inversion H]].
  - destruct (x <? z)%Z; [apply elem_of_cons |].
    destruct (x =? z)%Z eqn:Heq.
    + apply Z.eqb_eq in Heq as ->. rewrite elem_of_cons. tauto.
    + rewrite !elem_of_cons, IH. tauto.
Qed.

Lemma elem_of_unique (y : Z) (l : list Z) : y ∈ unique l <-> y ∈ l.
Proof.
  unfold unique. induction l as [|x l IH]; simpl; [reflexivity |].
  rewrite elem_of_insert_unique, IH, elem_of_cons. reflexivity.
Qed.

Lemma elem_of_cluster_nums (c : Z) (clusters : list Z) :
  c ∈ List.filter (fun c => negb (c =? -1)%Z) (unique clusters) <->
  c ∈ clusters /\ c <> (-1)%Z.
Proof.
  rewrite list_elem_of_In, filter_In, <- list_elem_of_In, elem_of_unique.
  rewrite negb_true_iff, Z.eqb_neq. reflexivity.
Qed.

(** The labelling: one label per pore, the sentinel exactly on the pores
    whose occupancy is false. *)
Lemma merge_labels_sentinel (mask : list bool) (labels : list Z) (ab : nat * nat) :
  Forall2 (fun (l : Z) (b : bool) => l = (-1)%Z <-> b = false) labels mask ->
  Forall2 (fun (l : Z) (b : bool) => l = (-1)%Z <-> b = false)
          (merge_labels labels ab) mask.
Proof.
  intros H. unfold merge_labels.
  destruct (labels !! ab.1) as [la|]; [|exact H].
  destruct (labels !! ab.2) as [lb|]; [|exact H].
  destruct (_ || _) eqn:Hor; [exact H |].
  apply orb_false_iff in Hor as [Ha Hb].
  apply Z.eqb_neq in Ha, Hb.
  apply Forall2_fmap_l. eapply Forall2_impl; [exact H |].
  intros l b Hlb. simpl. destruct (l =? lb)%Z eqn:Heq.
  - apply Z.eqb_eq in Heq. subst l. split; [intros; congruence |].
    intros Hbf. apply Hlb in Hbf. congruence.
  - exact Hlb.
Qed.

Lemma find_clusters2_sentinel (net : Network) (mask : list bool) :
  length mask = Np net ->
  exists clusters,
    find_clusters2 net mask = Ok clusters /\
    Forall2 (fun (l : Z) (b : bool) => l = (-1)%Z <-> b = false) clusters mask.
Proof.
  intros Hlen. unfold find_clusters2.
  destruct (decide _); [|contradiction].
  eexists. split; [reflexivity |].
  assert (Hinit : Forall2 (fun (l : Z) (b : bool) => l = (-1)%Z <-> b = false)
                    (imap (fun i (b : bool) => if b then Z.of_nat i else (-1)%Z) mask)
                    mask).
  { apply Forall2_same_length_lookup. split; [apply length_imap |].
    intros i l b Hl Hb. rewrite list_lookup_imap, Hb in Hl. simpl in Hl.
    injection Hl as <-. destruct b; split; intros; lia || congruence. }
  revert Hinit. generalize (imap (fun i (b : bool) => if b then Z.of_nat i else (-1)%Z) mask).
  induction (conns net) as [|ab l IH]; intros labels Hl; simpl; [exact Hl |].
  apply IH, merge_labels_sentinel, Hl.
Qed.

(** The run of [static_pressure] when the arrays have one entry per pore and
    exactly one component of [g], the one of column [k], is positive. *)
Lemma static_pressure_run (pd po : string) (g : vec3) (k : nat) (w : world)
    (rho occ : ndarray) :
  phase_props (phase w) !! pd = Some rho ->
  phase_props (phase w) !! po = Some occ ->
  length rho = Np (network w) -> length occ = Np (network w) ->
  length (coords (network w)) = Np (network w) ->
  where_ (fun x => fltb (Num 0) x) (vec3_to_list g) = [k] ->
  exists clusters v,
    find_clusters2 (network w) (truthy <$> occ) = Ok clusters /\
    Forall2 (fun (l : Z) (b : bool) => l = (-1)%Z <-> b = false)
            clusters (truthy <$> occ) /\
    static_pressure pd po g w = (Ok v, w) /\
    length v = Np (network w) /\
    forall p c, clusters !! p = Some c ->
      (c = (-1)%Z -> v !! p = Some (Num 0)) /\
      (c <> (-1)%Z ->
       v !! p = Some (pressure_at (network w) rho g k clusters c p)).
Proof.
  intros Hrho Hocc Hlr Hlo Hlc Hg.
  destruct (find_clusters2_sentinel (network w) (truthy <$> occ))
    as (clusters & Hcl & Hsent).
  { rewrite length_fmap. exact Hlo. }
  assert (Hlcl : length clusters = Np (network w)).
  { rewrite (Forall2_length _ _ _ Hsent), length_fmap. exact Hlo. }
  destruct (static_pressure_loop (network w) rho g k clusters
              (List.filter (fun c => negb (c =? -1)%Z) (unique clusters))
              (replicate (Np (network w)) (Num 0)) w)
    as (v & Hrun & Hl & Hv); try congruence.
  { rewrite length_replicate. congruence. }
  { apply Forall_forall. intros c Hc. apply elem_of_cluster_nums in Hc. tauto. }
  exists clusters, v. split; [exact Hcl |]. split; [exact Hsent |].
  split; [|split].
  - unfold static_pressure, bind, network_Np, phase_getitem, getitem, get_network, lift.
    rewrite Hrho, Hocc, Hcl. exact Hrun.
  - rewrite Hl. apply length_replicate.
  - intros p c Hp. destruct (Hv p c Hp) as [Hin Hout]. split.
    + intros ->. rewrite Hout by (rewrite elem_of_cluster_nums; tauto).
      apply lookup_replicate_2. rewrite <- Hlcl. eapply lookup_lt_Some, Hp.
    + intros Hne. apply Hin. apply elem_of_cluster_nums. split; [|exact Hne].
      eapply list_elem_of_lookup_2, Hp.
Qed.

(** Whatever is assigned, [a[idx] = x] keeps the length and the entries
    outside [idx]. *)
Lemma assign_seq_frame (idx : list nat) (a x v : ndarray) :
  assign_seq a idx x = Ok v ->
  length v = length a /\ forall p, p ∉ idx -> v !! p = a !! p.
Proof.
  revert a x. induction idx as [|i idx IH]; intros a x; simpl.
  - intros H. injection H as <-. auto.
  - destruct x as [|y x]; [discriminate |].
    destruct (decide (i < length a)%nat); [|discriminate].
    intros H. apply IH in H as [Hl Hp]. rewrite length_insert in Hl.
    split; [exact Hl |]. intros p Hpi. apply not_elem_of_cons in Hpi as [Hne Hpi].
    rewrite (Hp p Hpi). apply list_lookup_insert_ne. congruence.
Qed.

Lemma assign_indices_frame (idx : list nat) (a x v : ndarray) :
  assign_indices a idx x = Ok v ->
  length v = length a /\ forall p, p ∉ idx -> v !! p = a !! p.
Proof.
  unfold assign_indices. destruct (decide _).
  - apply assign_seq_frame.
  - destruct x as [|y [|z x]]; try discriminate. apply assign_seq_frame.
Qed.

(** Whenever the loop of [static_pressure] completes, the length is kept
    and so are the entries of the pores labelled with the sentinel. *)
Lemma static_pressure_loop_frame (net : Network) (rho : ndarray) (g : vec3)
    (clusters : list Z) (L : list Z) (acc v : ndarray) (w w' : world) :
  for_each L (static_pressure_cluster net rho g clusters) acc w = (Ok v, w') ->
  length v = length acc /\
  forall p c, clusters !! p = Some c -> c ∉ L -> v !! p = acc !! p.
Proof.
  revert acc w. induction L as [|c L IH]; intros acc w; simpl.
  - unfold ret. intros H. injection H as <- _. auto.
  - intros H. bind_inv H. rename a into v1.
    apply IH in H as [Hl Hp].
    unfold static_pressure_cluster in Hstep.
    do 4 bind_inv Hstep. unfold lift in Hstep. injection Hstep as Hassign _.
    apply assign_indices_frame in Hassign as [Hl1 Hp1].
    split; [congruence |].
    intros p c' Hpc Hc'. apply not_elem_of_cons in Hc' as [Hne Hc'].
    rewrite (Hp p c' Hpc Hc'). apply Hp1.
    fold (cluster_pores clusters c). rewrite elem_of_cluster_pores. congruence.
Qed.

Lemma static_pressure_frame (pd po : string) (g : vec3) (w w' : world)
    (occ v : ndarray) :
  phase_props (phase w) !! po = Some occ ->
  static_pressure pd po g w = (Ok v, w') ->
  length v = Np (network w) /\
  forall p x, occ !! p = Some x -> truthy x = false -> v !! p = Some (Num 0).
Proof.
  intros Hocc H. unfold static_pressure in H.
  bind_inv H. unfold network_Np in Hstep. injection Hstep as <- <-.
  bind_inv H. rename a into rho.
  unfold phase_getitem in Hstep. injection Hstep as _ <-.
  bind_inv H. unfold phase_getitem, getitem in Hstep. rewrite Hocc in Hstep.
  injection Hstep as <- <-.
  bind_inv H. unfold get_network in Hstep. injection Hstep as <- <-.
  bind_inv H. rename a into clusters. unfold lift in Hstep.
  injection Hstep as Hcl <-.
  apply static_pressure_loop_frame in H as [Hl Hp].
  rewrite length_replicate in Hl. split; [exact Hl |].
  intros p x Hx Hfalse.
  assert (Hlo : length (truthy <$> occ) = Np (network w)).
  { unfold find_clusters2 in Hcl. destruct (decide _); [assumption | discriminate]. }
  destruct (find_clusters2_sentinel (network w) (truthy <$> occ) Hlo)
    as (clusters' & Hcl' & Hsent).
  assert (clusters' = clusters) by congruence. subst clusters'.
  assert (Hm : (truthy <$> occ) !! p = Some false).
  { rewrite list_lookup_fmap, Hx. simpl. congruence. }
  destruct (Forall2_lookup_r _ _ _ _ _ Hsent Hm) as (l & Hlp & Hlm).
  assert (l = (-1)%Z) by (apply Hlm; reflexivity). subst l.
  rewrite (Hp p (-1)%Z Hlp).
  - apply lookup_replicate_2. rewrite <- Hlo, length_fmap. eapply lookup_lt_Some, Hx.
  - rewrite elem_of_cluster_nums. intros [_ Hne]. congruence.
Qed.

Lemma vcomp_foldl_fmax2 (k : nat) (x : vec3) (l : list vec3) :
  (k < 3)%nat ->
  vcomp k (foldl (vec3_zip fmax2) x l) = foldl fmax2 (vcomp k x) (vcomp k <$> l).
Proof.
  intros Hk. revert x. induction l as [|y l IH]; intros x; simpl; [reflexivity |].
  rewrite IH, vcomp_zip by exact Hk. reflexivity.
Qed.

Lemma finite_list (fs : list float) :
  Forall (fun f => exists z, f = Num z) fs -> exists zs, fs = Num <$> zs.
Proof.
  induction 1 as [|f fs [z ->] _ [zs ->]].
  - exists []. reflexivity.
  - exists (z :: zs). reflexivity.
Qed.

(** The top of a cluster along axis [k]: the greatest coordinate of its
    pores, reached by one of them. *)
Lemma cluster_top_is_maximum (net : Network) (clusters : list Z) (c : Z) (k : nat) :
  (k < 3)%nat -> c ∈ clusters ->
  (forall q, clusters !! q = Some c -> exists z, vcomp k (row_at net q) = Num z) ->
  exists tops top,
    amax0 (row_at net <$> cluster_pores clusters c) = Ok tops /\
    vcomp k tops = Num top /\
    (exists q, clusters !! q = Some c /\ vcomp k (row_at net q) = Num top) /\
    (forall q zq, clusters !! q = Some c ->
                  vcomp k (row_at net q) = Num zq -> zq <= top).
Proof.
  intros Hk Hc Hfin.
  assert (Hall : Forall (fun f => exists z, f = Num z)
                   ((fun q => vcomp k (row_at net q)) <$> cluster_pores clusters c)).
  { apply Forall_fmap, Forall_forall. intros q Hq.
    apply elem_of_cluster_pores in Hq. apply Hfin, Hq. }
  destruct (finite_list _ Hall) as [zs Hzs].
  assert (Hmem : forall z, z ∈ zs ->
            exists q, clusters !! q = Some c /\ vcomp k (row_at net q) = Num z).
  { intros z Hz.
    assert (Hin : Num z ∈ (Num <$> zs)) by (apply list_elem_of_fmap; eauto).
    rewrite <- Hzs in Hin. apply list_elem_of_fmap in Hin as (q & Hq & Hqin).
    exists q. split; [apply elem_of_cluster_pores, Hqin | congruence]. }
  assert (Hbound : forall m, Forall (fun y => y <= m) zs ->
            forall q zq, clusters !! q = Some c ->
                         vcomp k (row_at net q) = Num zq -> zq <= m).
  { intros m Hm q zq Hq Hzq. rewrite Forall_forall in Hm. apply Hm.
    assert (Hin : Num zq ∈ (Num <$> zs)).
    { rewrite <- Hzs. apply list_elem_of_fmap. exists q.
      split; [congruence | apply elem_of_cluster_pores, Hq]. }
    apply list_elem_of_fmap in Hin as (z & Heq & Hz). congruence. }
  destruct (cluster_pores clusters c) as [|q0 Ps] eqn:HPs.
  { apply list_elem_of_lookup in Hc as [p Hp].
    apply elem_of_cluster_pores in Hp. rewrite HPs in Hp. inversion Hp. }
  destruct zs as [|z0 zs]; [discriminate |].
  rewrite !fmap_cons in Hzs. injection Hzs as Hz0 Hzs.
  destruct (foldl_fmax2_num zs z0) as (m & Hm & Hle & Hallm & Hin).
  exists (foldl (vec3_zip fmax2) (row_at net q0) (row_at net <$> Ps)), m.
  split; [reflexivity |]. split; [|split].
  - rewrite vcomp_foldl_fmax2 by exact Hk.
    rewrite <- list_fmap_compose. unfold compose. rewrite Hz0, Hzs. exact Hm.
  - apply Hmem. destruct Hin as [->|Hin]; [left | right; exact Hin].
  - apply Hbound. constructor; assumption.
Qed.

(** The pressure of a pore in real numbers: density times the positive
    component of [g] times the height below the top of its cluster. *)
Lemma pressure_at_hydrostatic (net : Network) (rho : ndarray) (g : vec3) (k : nat)
    (clusters : list Z) (c : Z) (p : nat) (gk z r : R) :
  (k < 3)%nat -> vcomp k g = Num gk ->
  (forall q, clusters !! q = Some c -> exists zq, vcomp k (row_at net q) = Num zq) ->
  clusters !! p = Some c ->
  vcomp k (row_at net p) = Num z -> rho !! p = Some (Num r) ->
  exists top,
    (exists q, clusters !! q = Some c /\ vcomp k (row_at net q) = Num top) /\
    (forall q zq, clusters !! q = Some c ->
                  vcomp k (row_at net q) = Num zq -> zq <= top) /\
    pressure_at net rho g k clusters c p = Num (r * gk * (top - z)).
Proof.
  intros Hk Hg Hfin Hp Hz Hr.
  destruct (cluster_top_is_maximum net clusters c k Hk) as (tops & top & Ht & Htop & Hq & Hb);
    [eapply list_elem_of_lookup_2, Hp | exact Hfin |].
  exists top. split; [exact Hq |]. split; [exact Hb |].
  unfold pressure_at. rewrite Ht, !vcomp_zip by exact Hk.
  rewrite Hg, Htop, Hz, Hr. simpl. f_equal. lra.
Qed.

Lemma where_positive_default :
  where_ (fun x => fltb (Num 0) x) (vec3_to_list g_default) = [2%nat].
Proof.
  unfold where_, g_default. simpl.
  rewrite !bool_decide_eq_false_2 by lra.
  rewrite bool_decide_eq_true_2 by lra. reflexivity.
Qed.

Lemma truthy_one : truthy (Num 1) = true.
Proof. unfold truthy. rewrite feqb_num_ne by lra. reflexivity. Qed.


Lemma select_columns_length (rows : list vec3) (cols : list nat) :
  Forall (fun c => (c < 3)%nat) cols ->
  length (select_columns rows cols) = (length rows * length cols)%nat.
Proof.
  intros Hc. unfold select_columns.
  induction rows as [|row rows IH]; [reflexivity |].
  cbn [flat_map length]. rewrite length_app, IH.
  enough (length (omap (fun c => vec3_to_list row !! c) cols) = length cols) by lia.
  clear IH. induction Hc as [|c cols Hc _ IH]; [reflexivity |].
  change (omap (fun c => vec3_to_list row !! c) (c :: cols))
    with (match vec3_to_list row !! c with
          | Some y => y :: omap (fun c => vec3_to_list row !! c) cols
          | None => omap (fun c => vec3_to_list row !! c) cols
          end).
  destruct (lookup_lt_is_Some_2 (vec3_to_list row) c) as [y Hy].
  { destruct row as [[a b] d]. exact Hc. }
  rewrite Hy. cbn [length]. rewrite IH. reflexivity.
Qed.

Lemma positive_columns_valid (g : vec3) :
  Forall (fun c => (c < 3)%nat)
         (where_ (fun x => fltb (Num 0) x) (vec3_to_list g)).
Proof.
  apply Forall_forall. intros k Hk.
  apply elem_of_where in Hk as (x & Hx & _).
  apply lookup_lt_Some in Hx. destruct g as [[a b] d]. exact Hx.
Qed.

(** The product with the densities and the assignment to the pores of the
    cluster, when the selection has not one value per pore: [m] values per
    pore with [m] other than 1 never fit, whether numpy objects to the
    product or to the assignment. *)
Lemma assign_broadcast_mismatch (a P rhoPs : ndarray) (Ps : list nat) (m : nat) :
  Ps <> [] -> m <> 1%nat ->
  length P = (length Ps * m)%nat -> length rhoPs = length Ps ->
  match broadcast fmul P rhoPs with
  | Ok x => assign_indices a Ps x
  | Raise e => Raise e
  end = Raise ValueError.
Proof.
  intros Hne Hm HlP Hlr.
  destruct Ps as [|p [|p' Ps]]; [congruence | |].
  - destruct rhoPs as [|y [|y' rhoPs]]; try discriminate.
    simpl in HlP. rewrite Nat.add_0_r in HlP.
    destruct P as [|x [|x' P]]; simpl in HlP; [| lia |].
    + reflexivity.
    + unfold broadcast. simpl length.
      destruct (decide _) as [Heq|_]; [lia |].
      unfold assign_indices. simpl length.
      destruct (decide _) as [Heq|_]; [lia |]. reflexivity.
  - destruct rhoPs as [|y [|y' rhoPs]]; try discriminate.
    simpl in HlP, Hlr.
    unfold broadcast. simpl length.
    destruct (decide _) as [Heq|_]; [nia |].
    destruct P as [|x [|x' P]]; simpl in HlP; [reflexivity | nia | reflexivity].
Qed.

(** One turn of the loop when the number of positive components of [g] is
    not one: the selection does not have the shape of the densities. *)
Lemma static_pressure_cluster_wrong_columns (net : Network) (rho : ndarray)
    (g : vec3) (clusters : list Z) (c : Z) (acc : ndarray) (w : world) :
  length (coords net) = length clusters ->
  length rho = length clusters ->
  length (where_ (fun x => fltb (Num 0) x) (vec3_to_list g)) <> 1%nat ->
  c ∈ clusters ->
  static_pressure_cluster net rho g clusters c acc w = (Raise ValueError, w).
Proof.
  intros Hlc Hlr Hg Hc.
  assert (Hvalid : Forall (fun i => (i < length clusters)%nat) (cluster_pores clusters c)).
  { apply Forall_forall. intros p Hp. apply elem_of_cluster_pores in Hp.
    eapply lookup_lt_Some, Hp. }
  assert (Hne : cluster_pores clusters c <> []).
  { apply list_elem_of_lookup in Hc as [p Hp].
    apply elem_of_cluster_pores in Hp. intros Heq. rewrite Heq in Hp. inversion Hp. }
  unfold static_pressure_cluster. fold (cluster_pores clusters c).
  rewrite take_rows_fmap by (rewrite Hlc; exact Hvalid). rewrite bind_lift_Ok.
  destruct (amax0 (row_at net <$> cluster_pores clusters c)) as [tops|e] eqn:Htops.
  2: { destruct (cluster_pores clusters c); [congruence | discriminate]. }
  rewrite bind_lift_Ok.
  rewrite take_indices_fmap by (rewrite Hlr; exact Hvalid). rewrite bind_lift_Ok.
  unfold bind, lift.
  match goal with |- context [broadcast fmul ?P ?r] =>
    pose proof (assign_broadcast_mismatch acc P r (cluster_pores clusters c) _
                  Hne Hg) as Hmis end.
  rewrite select_columns_length, !length_fmap in Hmis
    by apply positive_columns_valid.
  specialize (Hmis eq_refl eq_refl).
  destruct (broadcast fmul _ _) as [x|e]; rewrite Hmis; reflexivity.
Qed.

(** With an occupied pore and a gravity vector whose number of positive
    components is not one, [static_pressure] raises [ValueError] at the first
    cluster it visits. *)
Lemma static_pressure_wrong_columns (pd po : string) (g : vec3)
    (w : world) (rho occ : ndarray) (p : nat) (x : float) :
  phase_props (phase w) !! pd = Some rho ->
  phase_props (phase w) !! po = Some occ ->
  length rho = Np (network w) -> length occ = Np (network w) ->
  length (coords (network w)) = Np (network w) ->
  length (where_ (fun x => fltb (Num 0) x) (vec3_to_list g)) <> 1%nat ->
  occ !! p = Some x -> truthy x = true ->
  static_pressure pd po g w = (Raise ValueError, w).
Proof.
  intros Hrho Hocc Hlr Hlo Hlc Hg Hp Hx.
  destruct (find_clusters2_sentinel (network w) (truthy <$> occ))
    as (clusters & Hcl & Hsent).
  { rewrite length_fmap. exact Hlo. }
  assert (Hlcl : length clusters = Np (network w)).
  { rewrite (Forall2_length _ _ _ Hsent), length_fmap. exact Hlo. }
  assert (Hm : (truthy <$> occ) !! p = Some true).
  { rewrite list_lookup_fmap, Hp. simpl. congruence. }
  destruct (Forall2_lookup_r _ _ _ _ _ Hsent Hm) as (c & Hc & Hcm).
  assert (Hne : c <> (-1)%Z) by (intros H; apply Hcm in H; discriminate).
  assert (Hin : c ∈ List.filter (fun c => negb (c =? -1)%Z) (unique clusters)).
  { apply elem_of_cluster_nums. split; [eapply list_elem_of_lookup_2, Hc | exact Hne]. }
  unfold static_pressure, bind, network_Np, phase_getitem, getitem, get_network, lift.
  rewrite Hrho, Hocc, Hcl.
  destruct (List.filter _ _) as [|c0 L] eqn:HL; [inversion Hin |].
  assert (Hc0 : c0 ∈ clusters).
  { assert (H0 : c0 ∈ c0 :: L) by left.
    rewrite <- HL in H0. apply elem_of_cluster_nums in H0. tauto. }
  simpl for_each. unfold bind.
  rewrite static_pressure_cluster_wrong_columns by (congruence || assumption).
  reflexivity.
Qed.




(** C10, as stated, fails: [static_pressure] does not always return.  With
    the lower of two pores occupied it raises [ValueError] and returns no
    array both under gravity along -z, where no component of the gravity
    vector is positive, and under a gravity vector with positive x and z
    components, where two are. *)
Lemma static_pressure_always_returns_counterexample :
  let w := two_pores_half_occupied in
  let down := (Num 0, Num 0, Num (-981 / 100)) in
  let slanted := (Num 1, Num 0, Num (981 / 100)) in
  static_pressure "pore.density" "pore.occupancy" down w = (Raise ValueError, w) /\
  static_pressure "pore.density" "pore.occupancy" slanted w = (Raise ValueError, w) /\
  ~ (exists v w', static_pressure "pore.density" "pore.occupancy" down w = (Ok v, w')) /\
  ~ (exists v w', static_pressure "pore.density" "pore.occupancy" slanted w = (Ok v, w')).
Proof.
  intros w down slanted.
  assert (Hdown : static_pressure "pore.density" "pore.occupancy" down w
                  = (Raise ValueError, w)).
  { apply (static_pressure_wrong_columns "pore.density" "pore.occupancy" _
             w [Num 1000; Num 1000] [Num 1; Num 0] 0%nat (Num 1));
      try reflexivity; [|apply truthy_one].
    unfold where_, down. simpl.
    rewrite !bool_decide_eq_false_2 by lra. discriminate. }
  assert (Hslanted : static_pressure "pore.density" "pore.occupancy" slanted w
                     = (Raise ValueError, w)).
  { apply (static_pressure_wrong_columns "pore.density" "pore.occupancy" _
             w [Num 1000; Num 1000] [Num 1; Num 0] 0%nat (Num 1));
      try reflexivity; [|apply truthy_one].
    unfold where_, slanted. simpl.
    rewrite (bool_decide_eq_true_2 (0 < 1)) by lra.
    rewrite (bool_decide_eq_false_2 (0 < 0)) by lra.
    rewrite (bool_decide_eq_true_2 (0 < 981 / 100)) by lra. discriminate. }
  split; [exact Hdown |]. split; [exact Hslanted |]. split.
  - intros (v & w' & Hv). rewrite Hdown in Hv. discriminate.
  - intros (v & w' & Hv). rewrite Hslanted in Hv. discriminate.
Qed.

(** C10 (as amended).  Whenever [static_pressure] returns, the array has
    one entry per pore of the network and holds exactly 0 at every pore
    whose occupancy is falsy; and it does return when the density, occupancy
    and coordinate arrays have one entry per pore and exactly one component
    of the gravity vector is positive. *)
Theorem static_pressure_length_and_unoccupied (pd po : string) (g : vec3)
    (w : world) (occ : ndarray) :
  phase_props (phase w) !! po = Some occ ->
  (forall v w',
     static_pressure pd po g w = (Ok v, w') ->
     length v = Np (network w) /\
     forall p x, occ !! p = Some x -> truthy x = false -> v !! p = Some (Num 0)) /\
  (forall rho k,
     phase_props (phase w) !! pd = Some rho ->
     length rho = Np (network w) -> length occ = Np (network w) ->
     length (coords (network w)) = Np (network w) ->
     where_ (fun x => fltb (Num 0) x) (vec3_to_list g) = [k] ->
     exists v, static_pressure pd po g w = (Ok v, w)).
Proof.
  intros Hocc. split.
  - intros v w' Hrun. eapply static_pressure_frame; eassumption.
  - intros rho k Hrho Hlr Hlo Hlc Hg.
    destruct (static_pressure_run pd po g k w rho occ)
      as (clusters & v & _ & _ & Hrun & _); try assumption.
    exists v. exact Hrun.
Qed.

Lemma static_pressure_length_and_unoccupied_witness :
  exists v,
    static_pressure "pore.density" "pore.occupancy" g_default
                    two_pores_half_occupied
    = (Ok v, two_pores_half_occupied) /\
    length v = 2%nat /\
    v !! 1%nat = Some (Num 0).
Proof.
  destruct (static_pressure_length_and_unoccupied "pore.density" "pore.occupancy"
              g_default two_pores_half_occupied [Num 1; Num 0] eq_refl)
    as [Hframe Hret].
  destruct (Hret [Num 1000; Num 1000] 2%nat) as [v Hv].
  - reflexivity.
  - reflexivity.
  - reflexivity.
  - reflexivity.
  - apply where_positive_default.
  - exists v. split; [exact Hv |].
    destruct (Hframe v _ Hv) as [Hlen Hzero].
    split; [exact Hlen |].
    apply (Hzero 1%nat (Num 0)); [reflexivity |].
    unfold truthy. rewrite feqb_num_eq. reflexivity.
Defined.

(* ===================================================================== *)
(** ** Further properties of the zero-radius substitution *)
(* ===================================================================== *)

(** X1.  With a caller-supplied constant the mode plays no part:
    [_handle_zeros] returns for every array, the empty one included, and for
    every mode string, the array in which the zero entries hold the constant
    and every other entry is unchanged. *)
Theorem handle_zeros_constant (a : ndarray) (mode : string) (c : float) :
  exists r,
    _handle_zeros a mode (Some c) = Ok r /\
    length r = length a /\
    forall i x, a !! i = Some x ->
                r !! i = Some (if feqb x (Num 0) then c else x).
Proof.
  exists (assign_where_eq a (Num 0) c). split; [reflexivity |].
  unfold assign_where_eq. split; [apply length_fmap |].
  intros i x Hx. rewrite list_lookup_fmap, Hx. reflexivity.
Qed.

Lemma assign_where_eq_num (l : list R) (m : R) :
  assign_where_eq (Num <$> l) (Num 0) (Num m)
  = (fun y => Num (if decide (y = 0) then m else y)) <$> l.
Proof.
  unfold assign_where_eq. rewrite <- list_fmap_compose.
  apply list_fmap_ext. intros i y _. unfold compose. rewrite feqb_num.
  destruct (decide (y = 0)) as [Hy|Hy].
  - rewrite bool_decide_eq_true_2 by exact Hy. reflexivity.
  - rewrite bool_decide_eq_false_2 by exact Hy. reflexivity.
Qed.

Lemma array_max_num (l : list R) :
  l <> [] ->
  exists m, array_max (Num <$> l) = Ok (Num m) /\ m ∈ l /\ Forall (fun y => y <= m) l.
Proof.
  destruct l as [|x l]; [congruence | intros _].
  destruct (foldl_fmax2_num l x) as (m & Hm & Hle & Hall & Hin).
  exists m. rewrite fmap_cons. unfold array_max. rewrite Hm.
  split; [reflexivity |]. split.
  - destruct Hin as [->|Hin]; [left | right; exact Hin].
  - constructor; assumption.
Qed.

(** X2.  Mode 'max' on finite non-negative radii of which one is positive:
    every zero is replaced by the greatest radius, which is positive, and
    every other radius is kept. *)
Theorem handle_zeros_max_fills_with_greatest (l : list R) :
  Forall (fun y => 0 <= y) l -> Exists (fun y => 0 < y) l ->
  exists m,
    m ∈ l /\ Forall (fun y => y <= m) l /\ 0 < m /\
    _handle_zeros (Num <$> l) "max" None
    = Ok ((fun y => Num (if decide (y = 0) then m else y)) <$> l).
Proof.
  intros Hnn Hpos.
  destruct (array_max_num l) as (m & Hm & Hin & Hall).
  { intros ->. inversion Hpos. }
  exists m. split; [exact Hin |]. split; [exact Hall |]. split.
  - apply Exists_exists in Hpos as (y & Hy & Hy0).
    rewrite Forall_forall in Hall. specialize (Hall y Hy). lra.
  - rewrite (handle_zeros_max _ _ Hm), assign_where_eq_num. reflexivity.
Qed.

Lemma handle_zeros_max_fills_with_greatest_witness :
  _handle_zeros (Num <$> [1; 0; 2]) "max" None = Ok [Num 1; Num 2; Num 2].
Proof.
  destruct (handle_zeros_max_fills_with_greatest [1; 0; 2])
    as (m & Hin & Hall & Hpos & Hrun).
  - repeat constructor; lra.
  - apply Exists_cons_hd. lra.
  - rewrite Hrun.
    assert (Hm : m = 2).
    { apply Rle_antisym.
      - apply elem_of_cons in Hin as [->|Hin]; [lra |].
        apply elem_of_cons in Hin as [->|Hin]; [lra |].
        apply list_elem_of_singleton in Hin as ->. lra.
      - rewrite Forall_forall in Hall. apply Hall. right; right; left. }
    subst m. simpl.
    destruct (decide (1 = 0)); [lra |].
    destruct (decide (0 = 0)); [|lra].
    destruct (decide (2 = 0)); [lra |]. reflexivity.
Defined.

(** X3.  Mode 'max' without a constant fails exactly on the empty array,
    where [array.max()] raises [ValueError]. *)
Theorem handle_zeros_max_raises_iff_empty (a : ndarray) :
  _handle_zeros a "max" None = Raise ValueError <-> a = [].
Proof.
  split.
  - intros H. destruct a as [|x a]; [reflexivity |].
    destruct (handle_zeros_max_ok (x :: a)) as (r & Hr & _); [discriminate |].
    congruence.
  - intros ->. reflexivity.
Qed.

Lemma assign_where_eq_without_zero (r : ndarray) (m : float) :
  Forall (fun v => feqb v (Num 0) = false) r -> assign_where_eq r (Num 0) m = r.
Proof.
  unfold assign_where_eq. induction 1 as [|v r Hv _ IH]; [reflexivity |].
  rewrite fmap_cons, Hv, IH. reflexivity.
Qed.

(** An array without zeros passes through mode 'max' unchanged. *)
Lemma handle_zeros_without_zero (r : ndarray) :
  r <> [] -> Forall (fun v => feqb v (Num 0) = false) r ->
  _handle_zeros r "max" None = Ok r.
Proof.
  intros Hne Hnz. destruct (array_max_ok r Hne) as [m Hm].
  rewrite (handle_zeros_max r m Hm), assign_where_eq_without_zero by exact Hnz.
  reflexivity.
Qed.

(** X4.  The substitution is idempotent on radii: what mode 'max' returns
    for finite non-negative radii with a positive one is returned unchanged
    by a second pass. *)
Theorem handle_zeros_max_idempotent (l : list R) (r : ndarray) :
  Forall (fun y => 0 <= y) l -> Exists (fun y => 0 < y) l ->
  _handle_zeros (Num <$> l) "max" None = Ok r ->
  _handle_zeros r "max" None = Ok r.
Proof.
  intros Hnn Hpos Hr.
  pose proof (handle_zeros_max_no_zero l r Hnn Hpos Hr) as Hall.
  apply handle_zeros_without_zero.
  - apply handle_zeros_length in Hr. rewrite length_fmap in Hr.
    intros ->. destruct l; [inversion Hpos | discriminate].
  - eapply Forall_impl; [exact Hall |].
    intros v (y & -> & Hy). apply feqb_num_ne. lra.
Qed.

Lemma handle_zeros_max_idempotent_witness :
  exists r,
    _handle_zeros (Num <$> [0; 3]) "max" None = Ok r /\
    _handle_zeros r "max" None = Ok r.
Proof.
  destruct (handle_zeros_max_ok (Num <$> [0; 3])) as (r & Hr & _); [discriminate |].
  exists r. split; [exact Hr |].
  apply (handle_zeros_max_idempotent [0; 3] r).
  - repeat constructor; lra.
  - apply Exists_cons_tl, Exists_cons_hd. lra.
  - exact Hr.
Defined.

(** X5.  Mode 'max' takes the maximum of all entries, zeros included: on
    finite radii none of which is positive, the zeros stay and the array is
    returned as it was. *)
Theorem handle_zeros_max_keeps_zeros (l : list R) :
  Forall (fun y => y <= 0) l -> 0 ∈ l ->
  _handle_zeros (Num <$> l) "max" None = Ok (Num <$> l).
Proof.
  intros Hnp H0.
  destruct (array_max_num l) as (m & Hm & Hin & Hall).
  { intros ->. inversion H0. }
  assert (Hm0 : m = 0).
  { rewrite Forall_forall in Hnp, Hall.
    specialize (Hnp m Hin). specialize (Hall 0 H0). lra. }
  subst m. rewrite (handle_zeros_max _ _ Hm), assign_where_eq_num.
  f_equal. apply list_fmap_ext. intros i y _.
  destruct (decide (y = 0)) as [->|_]; reflexivity.
Qed.

Lemma handle_zeros_max_keeps_zeros_witness :
  _handle_zeros (Num <$> [0; 0]) "max" None = Ok (Num <$> [0; 0]).
Proof.
  apply handle_zeros_max_keeps_zeros.
  - repeat constructor; lra.
  - left.
Defined.

(* ===================================================================== *)
(** ** Further properties of Washburn, Purcell and cuboid *)
(* ===================================================================== *)

(** X6.  Whatever [washburn] or [cuboid] returns holds neither +inf nor
    -inf: both end by storing 0 over the entries of infinite magnitude. *)
Theorem clamped_models_return_no_infinity (st ca d : string) (w w' : world)
    (v : ndarray) :
  washburn st ca d w = (Ok v, w') \/ cuboid st ca d w = (Ok v, w') ->
  Forall (fun x => x <> PInf /\ x <> NInf) v.
Proof.
  intros [H|H]; apply Forall_forall; intros x Hx.
  - eapply washburn_no_inf; eassumption.
  - eapply cuboid_no_inf; eassumption.
Qed.

Lemma clamped_models_return_no_infinity_witness :
  let w := one_throat (Num 1) (Num 180) (Num 0) in
  exists v,
    washburn "throat.surface_tension" "throat.contact_angle" "throat.diameter" w
    = (Ok v, w) /\
    Forall (fun x => x <> PInf /\ x <> NInf) v.
Proof.
  intros w. eexists. split; [apply washburn_one_throat |].
  apply (clamped_models_return_no_infinity "throat.surface_tension"
           "throat.contact_angle" "throat.diameter" w w).
  left. apply washburn_one_throat.
Defined.

(** X7.  An element whose radius is still zero after the substitution (all
    diameters are zero) gets the entry pressure 0 from [washburn] whenever
    sigma cos(theta) is not zero: the quotient is infinite and is clamped. *)
Theorem washburn_zero_radius (st ca d : string) (w : world)
    (sigma theta diam r : ndarray) :
  resolved st d w = Ok sigma -> resolved ca d w = Ok theta ->
  net_props (network w) !! d = Some diam ->
  _handle_zeros ((fun x => fdiv x (Num 2)) <$> diam) "max" None = Ok r ->
  length sigma = length r -> length theta = length r ->
  Forall (fun i => (i < length r)%nat) (scope_of (split_head d) w) ->
  exists v,
    washburn st ca d w = (Ok v, w) /\
    forall (j i : nat) (s t ri : R),
      scope_of (split_head d) w !! j = Some i ->
      sigma !! i = Some (Num s) -> theta !! i = Some (Num t) ->
      r !! i = Some (Num ri) -> ri = 0 ->
      s * cos (t * (PI / 180)) <> 0 ->
      v !! j = Some (Num 0).
Proof.
  intros Hs Ht Hd Hr Hls Hlt Hidx.
  destruct (washburn_values st ca d w sigma theta diam r) as (v & Hrun & _ & Hv);
    try assumption.
  exists v. split; [exact Hrun |].
  intros j i s t ri Hj Hsi Hti Hri -> Hne.
  rewrite (Hv j i _ _ _ Hj Hsi Hti Hri).
  unfold washburn_elem, fradians. simpl fmul. simpl fcos. rewrite fdiv_by_zero.
  destruct (Rtotal_order (-2 * s * cos (t * (PI / 180))) 0) as [Hlt0|[Heq|Hgt]].
  - rewrite sign_inf_neg by exact Hlt0. reflexivity.
  - exfalso. apply Hne. lra.
  - rewrite sign_inf_pos by lra. reflexivity.
Qed.

Lemma washburn_zero_radius_witness :
  let w := one_throat (Num 1) (Num 180) (Num 0) in
  exists v,
    washburn "throat.surface_tension" "throat.contact_angle" "throat.diameter" w
    = (Ok v, w) /\
    v !! 0%nat = Some (Num 0).
Proof.
  intros w.
  destruct (washburn_zero_radius "throat.surface_tension"
              "throat.contact_angle" "throat.diameter" w
              [Num 1] [Num 180] [Num 0] [Num (0 / 2)])
    as (v & Hrun & Hv).
  - reflexivity.
  - reflexivity.
  - reflexivity.
  - rewrite <- half_num. apply (handle_zeros_singleton (fdiv (Num 0) (Num 2))).
  - reflexivity.
  - reflexivity.
  - repeat constructor.
  - exists v. split; [exact Hrun |].
    apply (Hv 0%nat 0%nat 1 180 (0 / 2)); try reflexivity; [lra |].
    rewrite radians_180, cos_PI. lra.
Defined.

(** X8.  For finite sigma and theta and a positive radius, the entry
    pressure of [washburn] is at most 2|sigma|/r in magnitude. *)
Theorem washburn_magnitude_bound (st ca d : string) (w : world)
    (sigma theta diam r : ndarray) :
  resolved st d w = Ok sigma -> resolved ca d w = Ok theta ->
  net_props (network w) !! d = Some diam ->
  _handle_zeros ((fun x => fdiv x (Num 2)) <$> diam) "max" None = Ok r ->
  length sigma = length r -> length theta = length r ->
  Forall (fun i => (i < length r)%nat) (scope_of (split_head d) w) ->
  exists v,
    washburn st ca d w = (Ok v, w) /\
    forall (j i : nat) (s t ri : R),
      scope_of (split_head d) w !! j = Some i ->
      sigma !! i = Some (Num s) -> theta !! i = Some (Num t) ->
      r !! i = Some (Num ri) -> 0 < ri ->
      exists Pc, v !! j = Some (Num Pc) /\ Rabs Pc <= 2 * Rabs s / ri.
Proof.
  intros Hs Ht Hd Hr Hls Hlt Hidx.
  destruct (washburn_values st ca d w sigma theta diam r) as (v & Hrun & _ & Hv);
    try assumption.
  exists v. split; [exact Hrun |].
  intros j i s t ri Hj Hsi Hti Hri Hpos.
  exists (-2 * s * cos (t * (PI / 180)) / ri). split.
  - rewrite (Hv j i _ _ _ Hj Hsi Hti Hri), washburn_elem_num by lra. reflexivity.
  - unfold Rdiv. rewrite Rabs_mult, (Rabs_right (/ ri)).
    2: { left. apply Rinv_0_lt_compat, Hpos. }
    apply Rmult_le_compat_r; [left; apply Rinv_0_lt_compat, Hpos |].
    rewrite !Rabs_mult.
    replace (Rabs (-2)) with 2 by (rewrite Rabs_left; lra).
    assert (Hc : Rabs (cos (t * (PI / 180))) <= 1).
    { apply Rabs_le. apply COS_bound. }
    pose proof (Rabs_pos s). nra.
Qed.

Lemma washburn_magnitude_bound_witness :
  let w := one_throat (Num 1) (Num 120) (Num 2) in
  exists v Pc,
    washburn "throat.surface_tension" "throat.contact_angle" "throat.diameter" w
    = (Ok v, w) /\
    v !! 0%nat = Some (Num Pc) /\ Rabs Pc <= 2 * Rabs 1 / (2 / 2).
Proof.
  intros w.
  destruct (washburn_magnitude_bound "throat.surface_tension"
              "throat.contact_angle" "throat.diameter" w
              [Num 1] [Num 120] [Num 2] [Num (2 / 2)])
    as (v & Hrun & Hv).
  - reflexivity.
  - reflexivity.
  - reflexivity.
  - rewrite <- half_num. apply (handle_zeros_singleton (fdiv (Num 2) (Num 2))).
  - reflexivity.
  - reflexivity.
  - repeat constructor.
  - destruct (Hv 0%nat 0%nat 1 120 (2 / 2)) as (Pc & H1 & H2);
      try reflexivity; [lra |].
    exists v, Pc. split; [exact Hrun |]. split; assumption.
Defined.

(** The values [purcell] returns on well-shaped data. *)
Lemma purcell_values (R : float) (st ca d : string) (w : world)
    (sigma theta diam r : ndarray) :
  resolved st d w = Ok sigma -> resolved ca d w = Ok theta ->
  net_props (network w) !! d = Some diam ->
  _handle_zeros ((fun x => fdiv x (Num 2)) <$> diam) "max" None = Ok r ->
  length sigma = length r -> length theta = length r ->
  Forall (fun i => (i < length r)%nat) (scope_of (split_head d) w) ->
  exists v,
    purcell R st ca d w = (Ok v, w) /\
    forall j i s t ri,
      scope_of (split_head d) w !! j = Some i ->
      sigma !! i = Some s -> theta !! i = Some t -> r !! i = Some ri ->
      v !! j = Some (purcell_elem R s t ri).
Proof.
  intros Hs Ht Hd Hr Hls Hlt Hidx.
  destruct (purcell_run R st ca d w sigma theta diam r)
    as (full & Hrun & Hlen & Hfull); try assumption.
  destruct (take_indices_ok full (scope_of (split_head d) w)) as [v Hv].
  { rewrite Hlen. exact Hidx. }
  exists v. rewrite Hrun, Hv. split; [reflexivity |].
  destruct (take_indices_spec _ _ _ Hv) as [_ Hlook].
  intros j i s t ri Hj Hsi Hti Hri.
  destruct (Hlook j i Hj) as [-> _]. eapply Hfull; eassumption.
Qed.

Lemma sign_inf_cases (x : R) :
  x <> 0 -> sign_inf x = PInf \/ sign_inf x = NInf.
Proof.
  intros Hx. destruct (Rtotal_order x 0) as [H|[H|H]]; [| contradiction |].
  - right. apply sign_inf_neg, H.
  - left. apply sign_inf_pos, H.
Qed.

Lemma fmul_inf_zero (a : float) : isinf a = true -> fmul a (Num 0) = NaN.
Proof.
  destruct a; try discriminate; intros _; simpl; unfold sign_inf;
    repeat (destruct (decide _); try lra); reflexivity.
Qed.

(** At radius zero the two factors of [purcell] are an infinity and a zero
    (or NaN): their product is NaN. *)
Lemma purcell_elem_zero_radius (Rv s t : R) :
  Rv <> 0 -> s <> 0 ->
  purcell_elem (Num Rv) (Num s) (Num t) (Num 0) = NaN.
Proof.
  intros HR Hs. unfold purcell_elem, fradians.
  assert (H1 : 1 + 0 / Rv <> 0) by (unfold Rdiv; rewrite Rmult_0_l; lra).
  float_num. rewrite (fdiv_by_zero (-2 * s)), (fdiv_by_zero Rv). float_num.
  set (c := 1 - cos _). set (n := cos _).
  assert (Hl : isinf (sign_inf (-2 * s)) = true).
  { destruct (sign_inf_cases (-2 * s)) as [->| ->]; [lra | reflexivity | reflexivity]. }
  destruct (sign_inf_cases Rv HR) as [HRi|HRi]; rewrite HRi.
  - simpl fmul at 2. unfold sign_inf at 2.
    destruct (decide (0 < c)); [|destruct (decide (c < 0))].
    + simpl. apply fmul_inf_zero, Hl.
    + simpl. apply fmul_inf_zero, Hl.
    + simpl. destruct (sign_inf (-2 * s)); reflexivity.
  - simpl fmul at 2. unfold sign_inf at 2.
    destruct (decide (0 < - c)); [|destruct (decide (- c < 0))].
    + simpl. apply fmul_inf_zero, Hl.
    + simpl. apply fmul_inf_zero, Hl.
    + simpl. destruct (sign_inf (-2 * s)); reflexivity.
Qed.

(** X9.  An element whose radius is still zero after the substitution gets
    NaN from [purcell] (finite sigma <> 0, theta, toroid radius <> 0), where
    [washburn] gives 0: nothing clamps the infinity before it meets a zero. *)
Theorem purcell_zero_radius (Rv : R) (st ca d : string) (w : world)
    (sigma theta diam r : ndarray) :
  resolved st d w = Ok sigma -> resolved ca d w = Ok theta ->
  net_props (network w) !! d = Some diam ->
  _handle_zeros ((fun x => fdiv x (Num 2)) <$> diam) "max" None = Ok r ->
  length sigma = length r -> length theta = length r ->
  Forall (fun i => (i < length r)%nat) (scope_of (split_head d) w) ->
  Rv <> 0 ->
  exists v,
    purcell (Num Rv) st ca d w = (Ok v, w) /\
    forall (j i : nat) (s t ri : R),
      scope_of (split_head d) w !! j = Some i ->
      sigma !! i = Some (Num s) -> theta !! i = Some (Num t) ->
      r !! i = Some (Num ri) -> ri = 0 -> s <> 0 ->
      v !! j = Some NaN.
Proof.
  intros Hs Ht Hd Hr Hls Hlt Hidx HR.
  destruct (purcell_values (Num Rv) st ca d w sigma theta diam r)
    as (v & Hrun & Hv); try assumption.
  exists v. split; [exact Hrun |].
  intros j i s t ri Hj Hsi Hti Hri -> Hne.
  rewrite (Hv j i _ _ _ Hj Hsi Hti Hri), purcell_elem_zero_radius by assumption.
  reflexivity.
Qed.

Lemma purcell_zero_radius_witness :
  let w := one_throat (Num 1) (Num 120) (Num 0) in
  exists v,
    purcell (Num 1) "throat.surface_tension" "throat.contact_angle"
            "throat.diameter" w = (Ok v, w) /\
    v !! 0%nat = Some NaN.
Proof.
  intros w.
  destruct (purcell_zero_radius 1 "throat.surface_tension"
              "throat.contact_angle" "throat.diameter" w
              [Num 1] [Num 120] [Num 0] [Num (0 / 2)])
    as (v & Hrun & Hv).
  - reflexivity.
  - reflexivity.
  - reflexivity.
  - rewrite <- half_num. apply (handle_zeros_singleton (fdiv (Num 0) (Num 2))).
  - reflexivity.
  - reflexivity.
  - repeat constructor.
  - lra.
  - exists v. split; [exact Hrun |].
    apply (Hv 0%nat 0%nat 1 120 (0 / 2)); try reflexivity; lra.
Defined.

Lemma purcell_elem_zero_toroid (s t r : R) :
  r <> 0 -> purcell_elem (Num 0) (Num s) (Num t) (Num r) = Num (2 * s / r).
Proof.
  intros Hr. unfold purcell_elem, fradians.
  rewrite fdiv_by_zero.
  assert (Hq : fdiv (fmul (Num t) (Num (PI / 180)))
                    (fadd (Num 1) (sign_inf r)) = Num 0).
  { destruct (sign_inf_cases r Hr) as [->| ->]; reflexivity. }
  rewrite Hq. float_num. rewrite sin_0, asin_0.
  replace ((t - (t - 180 + 0)) * (PI / 180)) with PI by lra.
  rewrite cos_PI.
  replace (1 + 0 / r * (1 - cos ((t - 180 + 0) * (PI / 180)))) with 1
    by (unfold Rdiv; rewrite Rmult_0_l; lra).
  float_num. f_equal. field. exact Hr.
Qed.

(** X10.  A toroid radius of zero raises nothing: r/R is infinite, the
    arcsine term vanishes, and [purcell] returns 2 sigma / r for every finite
    sigma and theta and every radius other than zero. *)
Theorem purcell_zero_toroid (st ca d : string) (w : world)
    (sigma theta diam r : ndarray) :
  resolved st d w = Ok sigma -> resolved ca d w = Ok theta ->
  net_props (network w) !! d = Some diam ->
  _handle_zeros ((fun x => fdiv x (Num 2)) <$> diam) "max" None = Ok r ->
  length sigma = length r -> length theta = length r ->
  Forall (fun i => (i < length r)%nat) (scope_of (split_head d) w) ->
  exists v,
    purcell (Num 0) st ca d w = (Ok v, w) /\
    forall (j i : nat) (s t ri : R),
      scope_of (split_head d) w !! j = Some i ->
      sigma !! i = Some (Num s) -> theta !! i = Some (Num t) ->
      r !! i = Some (Num ri) -> ri <> 0 ->
      v !! j = Some (Num (2 * s / ri)).
Proof.
  intros Hs Ht Hd Hr Hls Hlt Hidx.
  destruct (purcell_values (Num 0) st ca d w sigma theta diam r)
    as (v & Hrun & Hv); try assumption.
  exists v. split; [exact Hrun |].
  intros j i s t ri Hj Hsi Hti Hri Hne.
  rewrite (Hv j i _ _ _ Hj Hsi Hti Hri), purcell_elem_zero_toroid by assumption.
  reflexivity.
Qed.

Lemma purcell_zero_toroid_witness :
  let w := one_throat (Num 1) (Num 120) (Num 2) in
  exists v,
    purcell (Num 0) "throat.surface_tension" "throat.contact_angle"
            "throat.diameter" w = (Ok v, w) /\
    v !! 0%nat = Some (Num (2 * 1 / (2 / 2))).
Proof.
  intros w.
  destruct (purcell_zero_toroid "throat.surface_tension"
              "throat.contact_angle" "throat.diameter" w
              [Num 1] [Num 120] [Num 2] [Num (2 / 2)])
    as (v & Hrun & Hv).
  - reflexivity.
  - reflexivity.
  - reflexivity.
  - rewrite <- half_num. apply (handle_zeros_singleton (fdiv (Num 2) (Num 2))).
  - reflexivity.
  - reflexivity.
  - repeat constructor.
  - exists v. split; [exact Hrun |].
    apply (Hv 0%nat 0%nat 1 120 (2 / 2)); try reflexivity; lra.
Defined.

(* ===================================================================== *)
(** ** Missing keys, stored arrays and the slice *)
(* ===================================================================== *)

(** X11.  The surface tension is the first array looked up: when the phase
    has no array under its key, [washburn], [purcell] and [cuboid] raise
    [KeyError] with that key and leave every stored array as it was. *)
Theorem missing_surface_tension_raises (R : float) (st ca d : string) (w : world) :
  phase_props (phase w) !! st = None ->
  washburn st ca d w = (Raise (KeyError st), w) /\
  purcell R st ca d w = (Raise (KeyError st), w) /\
  cuboid st ca d w = (Raise (KeyError st), w).
Proof.
  intros H.
  assert (Hk : _get_key_props d st ca w = (Raise (KeyError st), w)).
  { unfold _get_key_props. unfold bind at 1.
    destruct (String.eqb (split_head st) "pore" && _);
      unfold bind at 1, phase_getitem at 1, getitem; rewrite H; reflexivity. }
  unfold washburn, purcell, cuboid, bind. rewrite Hk. auto.
Qed.

Lemma missing_surface_tension_raises_witness :
  let w := one_throat (Num 1) (Num 120) (Num 2) in
  washburn "pore.surface_tension" "throat.contact_angle" "throat.diameter" w
  = (Raise (KeyError "pore.surface_tension"), w).
Proof.
  intros w.
  apply (missing_surface_tension_raises (Num 1) "pore.surface_tension"
           "throat.contact_angle" "throat.diameter" w).
  reflexivity.
Defined.

(** The run of [cuboid] up to the lookup of the diameter, on a contact
    angle that is not interpolated. *)
Lemma cuboid_prefix_run (st ca d : string) (w : world) (sigma theta : ndarray) :
  String.eqb (split_head ca) "pore" && String.eqb (split_head d) "throat" = false ->
  resolved st d w = Ok sigma ->
  phase_props (phase w) !! ca = Some theta ->
  exists vs,
    _get_key_props d st ca w = (Ok (split_head d, vs, Alias ca), w) /\
    imul (Alias ca) (Num (2 * PI / 360)) w
    = (Ok (Alias ca),
       (phase_store ca ((fun x => fmul x (Num (2 * PI / 360))) <$> theta) w).2).
Proof.
  intros Hc Hs Ht.
  assert (Ht' : resolved ca d w = Ok theta).
  { unfold resolved, getitem. rewrite Hc, Ht. reflexivity. }
  destruct (get_key_props_run d st ca w sigma theta Hs Ht')
    as (vs & vt & Hrun & _ & _ & Hvt).
  rewrite Hc in Hvt. subst vt. exists vs. split; [exact Hrun |].
  unfold imul, bind, phase_getitem, getitem. simpl. rewrite Ht. reflexivity.
Qed.

(** X12.  [cuboid] converts a contact angle that is not interpolated before
    it looks the diameter up: when the network has no array under the
    diameter key the call raises [KeyError] with that key, and the phase is
    left with its contact angles multiplied by 2 pi / 360. *)
Theorem cuboid_missing_diameter_keeps_conversion (st ca d : string) (w : world)
    (sigma theta : ndarray) :
  String.eqb (split_head ca) "pore" && String.eqb (split_head d) "throat" = false ->
  resolved st d w = Ok sigma ->
  phase_props (phase w) !! ca = Some theta ->
  net_props (network w) !! d = None ->
  exists w',
    cuboid st ca d w = (Raise (KeyError d), w') /\
    phase_props (phase w')
    = <[ca := (fun x => fmul x (Num (2 * PI / 360))) <$> theta]>
        (phase_props (phase w)).
Proof.
  intros Hc Hs Ht Hd.
  destruct (cuboid_prefix_run st ca d w sigma theta Hc Hs Ht) as (vs & Hrun & Him).
  eexists. split.
  - unfold cuboid. rewrite (bind_run _ _ w w _ Hrun), (bind_run _ _ w _ _ Him).
    unfold bind at 1, network_getitem, getitem. simpl. rewrite Hd. reflexivity.
  - reflexivity.
Qed.

Lemma cuboid_missing_diameter_keeps_conversion_witness :
  let w := one_throat (Num 1) (Num 90) (Num 2) in
  exists w',
    cuboid "throat.surface_tension" "throat.contact_angle" "throat.size" w
    = (Raise (KeyError "throat.size"), w') /\
    phase_props (phase w') !! "throat.contact_angle"
    = Some [Num (90 * (2 * PI / 360))].
Proof.
  intros w.
  destruct (cuboid_missing_diameter_keeps_conversion "throat.surface_tension"
              "throat.contact_angle" "throat.size" w [Num 1] [Num 90])
    as (w' & Hrun & Hprops).
  - reflexivity.
  - reflexivity.
  - reflexivity.
  - reflexivity.
  - exists w'. split; [exact Hrun |].
    rewrite Hprops, lookup_insert_eq. reflexivity.
Defined.

Lemma cuboid_whole_world (st ca d : string) (w : world) (sigma theta : ndarray) :
  String.eqb (split_head ca) "pore" && String.eqb (split_head d) "throat" = false ->
  resolved st d w = Ok sigma ->
  phase_props (phase w) !! ca = Some theta ->
  (cuboid st ca d w).2
  = (phase_store ca ((fun x => fmul x (Num (2 * PI / 360))) <$> theta) w).2.
Proof.
  intros Hc Hs Ht.
  destruct (cuboid_prefix_run st ca d w sigma theta Hc Hs Ht) as (vs & Hrun & Him).
  unfold cuboid. rewrite (bind_run _ _ w w _ Hrun), (bind_run _ _ w _ _ Him).
  match goal with |- (?c ?w1).2 = _ =>
    assert (Hp : preserves c) by repeat preserves_step end.
  apply Hp.
Qed.

Lemma resolved_after_store (st ca d : string) (a : ndarray) (w : world) :
  st <> ca -> resolved st d (phase_store ca a w).2 = resolved st d w.
Proof.
  intros Hne. unfold resolved, bind, phase_getitem, getitem, interpolate_data.
  simpl. rewrite lookup_insert_ne by congruence.
  destruct (_ && _); [|reflexivity].
  destruct (phase_props (phase w) !! st); reflexivity.
Qed.

(** X13.  The conversion is applied at every call: after two calls of
    [cuboid] on a contact angle that is not interpolated, the phase holds
    the original angles multiplied by (2 pi / 360) twice. *)
Theorem cuboid_twice_converts_twice (st ca d : string) (w : world)
    (sigma theta : ndarray) :
  String.eqb (split_head ca) "pore" && String.eqb (split_head d) "throat" = false ->
  st <> ca ->
  resolved st d w = Ok sigma ->
  phase_props (phase w) !! ca = Some theta ->
  phase_props (phase (cuboid st ca d (cuboid st ca d w).2).2) !! ca
  = Some ((fun x => fmul (fmul x (Num (2 * PI / 360))) (Num (2 * PI / 360)))
            <$> theta).
Proof.
  intros Hc Hne Hs Ht.
  rewrite (cuboid_whole_world st ca d w sigma theta Hc Hs Ht).
  set (theta1 := (fun x => fmul x (Num (2 * PI / 360))) <$> theta).
  rewrite (cuboid_whole_world st ca d _ sigma theta1 Hc).
  - simpl. rewrite lookup_insert_eq. unfold theta1.
    rewrite <- list_fmap_compose. reflexivity.
  - rewrite resolved_after_store by exact Hne. exact Hs.
  - simpl. apply lookup_insert_eq.
Qed.

Lemma cuboid_twice_converts_twice_witness :
  let w := one_throat (Num 1) (Num 90) (Num 2) in
  phase_props
    (phase (cuboid "throat.surface_tension" "throat.contact_angle" "throat.diameter"
              (cuboid "throat.surface_tension" "throat.contact_angle"
                      "throat.diameter" w).2).2)
    !! "throat.contact_angle"
  = Some [Num (90 * (2 * PI / 360) * (2 * PI / 360))].
Proof.
  intros w.
  rewrite (cuboid_twice_converts_twice "throat.surface_tension"
             "throat.contact_angle" "throat.diameter" w [Num 1] [Num 90]).
  - reflexivity.
  - reflexivity.
  - discriminate.
  - reflexivity.
  - reflexivity.
Defined.

(** X14.  [washburn], [purcell], [kelvin], [from_throat] and
    [static_pressure] change no array stored on the network, the phase or
    the physics, whether they return or raise. *)
Theorem models_leave_stored_arrays (R : float) (g : vec3)
    (k1 k2 k3 k4 k5 k6 : string) (w : world) :
  (washburn k1 k2 k3 w).2 = w /\
  (purcell R k1 k2 k3 w).2 = w /\
  (kelvin k1 k2 k3 k4 k5 k6 w).2 = w /\
  (from_throat k1 k2 w).2 = w /\
  (static_pressure k1 k2 g w).2 = w.
Proof.
  repeat split.
  - apply washburn_preserves.
  - apply purcell_preserves.
  - apply kelvin_preserves.
  - apply from_throat_preserves.
  - apply static_pressure_preserves.
Qed.

(** The run of [cuboid] on a contact angle interpolated from the pores: on
    well-shaped data it returns, with one value per index of the scope, and
    the world is the one it started from. *)
Lemma cuboid_interpolated_run (st ca d : string) (w : world)
    (sigma theta diam : ndarray) :
  String.eqb (split_head ca) "pore" && String.eqb (split_head d) "throat" = true ->
  resolved st d w = Ok sigma -> resolved ca d w = Ok theta ->
  net_props (network w) !! d = Some diam -> diam <> [] ->
  length sigma = length diam -> length theta = length diam ->
  Forall (fun i => (i < length diam)%nat) (scope_of (split_head d) w) ->
  exists v,
    cuboid st ca d w = (Ok v, w) /\
    length v = length (scope_of (split_head d) w).
Proof.
  intros Hc Hs Ht Hd Hne Hls Hlt Hidx.
  destruct (get_key_props_run d st ca w sigma theta Hs Ht)
    as (vs & vt & Hrun & Hrs & _ & Hvt).
  rewrite Hc in Hvt. subst vt.
  destruct (handle_zeros_max_ok ((fun x => fdiv x (Num 2)) <$> diam))
    as (r & Hr & Hlr).
  { destruct diam; [congruence | discriminate]. }
  rewrite length_fmap in Hlr.
  unfold cuboid. rewrite (bind_run _ _ w w _ Hrun).
  assert (Him : imul (Temp theta) (Num (2 * PI / 360)) w
                = (Ok (Temp ((fun x => fmul x (Num (2 * PI / 360))) <$> theta)), w))
    by reflexivity.
  rewrite (bind_run _ _ w w _ Him).
  assert (Hget : network_getitem d w = (Ok diam, w)).
  { unfold network_getitem, getitem. rewrite Hd. reflexivity. }
  rewrite (bind_run _ _ w w _ Hget), Hr, bind_lift_Ok.
  assert (Hrt : read (Temp ((fun x => fmul x (Num (2 * PI / 360))) <$> theta)) w
                = (Ok ((fun x => fmul x (Num (2 * PI / 360))) <$> theta), w))
    by reflexivity.
  rewrite (bind_run _ _ w w _ Hrt), (bind_run _ _ w w _ Hrs).
  rewrite broadcast_same_length by solve_lengths. rewrite bind_lift_Ok.
  rewrite broadcast_same_length by solve_lengths. rewrite bind_lift_Ok.
  rewrite (bind_run _ _ w w _ (scope_indices_run _ w)).
  match goal with |- context [take_indices ?full _] =>
    destruct (take_indices_ok full (scope_of (split_head d) w)) as [v Hv] end.
  { eapply Forall_impl; [exact Hidx |]. intros i Hi. simpl in Hi. solve_lengths. }
  unfold bind, lift, ret. rewrite Hv.
  eexists. split; [reflexivity |].
  rewrite length_clamp_inf. apply take_indices_spec in Hv as [Hl _]. exact Hl.
Qed.

(** X15.  When the contact angle is stored on pores and the diameter on
    throats, [cuboid] converts the interpolated copy: the stored arrays are
    unchanged after the call, whether it returns or raises. *)
Theorem cuboid_interpolated_leaves_stored_arrays (st ca d : string) (w : world) :
  split_head ca = "pore"%string -> split_head d = "throat"%string ->
  (cuboid st ca d w).2 = w.
Proof.
  intros Hca Hd. apply cuboid_preserves_on_interpolation.
  rewrite Hca, Hd. reflexivity.
Qed.

Lemma cuboid_interpolated_leaves_stored_arrays_witness :
  let w := two_pores_pore_properties in
  (exists v,
     cuboid "pore.surface_tension" "pore.contact_angle" "throat.diameter" w
     = (Ok v, w) /\ length v = 1%nat) /\
  (cuboid "pore.surface_tension" "pore.contact_angle" "throat.diameter" w).2 = w /\
  phase_props (phase w) !! "pore.contact_angle" = Some [Num 30; Num 30].
Proof.
  intros w. split; [|split].
  - apply (cuboid_interpolated_run "pore.surface_tension" "pore.contact_angle"
             "throat.diameter" w
             [fdiv (fadd (Num 1) (Num 1)) (Num 2)]
             [fdiv (fadd (Num 30) (Num 30)) (Num 2)] [Num 2]);
      try reflexivity; [discriminate | repeat constructor].
  - apply cuboid_interpolated_leaves_stored_arrays; reflexivity.
  - reflexivity.
Defined.

Lemma get_key_props_entity (d st ca : string) (w w' : world)
    (e : string) (vs vt : var) :
  _get_key_props d st ca w = (Ok (e, vs, vt), w') -> e = split_head d /\ w' = w.
Proof.
  intros H. split.
  - unfold _get_key_props in H. do 2 bind_inv H.
    unfold ret in H. injection H as <- _ _ _. reflexivity.
  - pose proof (preserves_get_key_props d st ca w) as E.
    rewrite H in E. exact E.
Qed.

Lemma imul_scope (v v' : var) (c : float) (w w' : world) (e : string) :
  imul v c w = (Ok v', w') -> scope_of e w' = scope_of e w.
Proof.
  destruct v as [key|a]; unfold imul.
  - unfold bind, phase_getitem, phase_store, ret.
    destruct (getitem _ key); [|discriminate].
    intros H. injection H as _ <-. reflexivity.
  - unfold ret. intros H. injection H as _ <-. reflexivity.
Qed.

Ltac bind_inv_same H :=
  let a := fresh "a" in
  let w1 := fresh "w" in
  let Hs := fresh "Hstep" in
  apply bind_ok_inv in H as (a & w1 & Hs & H);
  match type of Hs with
  | ?c ?w0 = _ =>
      let E := fresh "E" in
      assert (E : (c w0).2 = w0)
        by (apply preserves_read || apply preserves_scope_indices || reflexivity);
      rewrite Hs in E; simpl in E; subst w1
  end.

Lemma slice_tail_length (e : string) (value : ndarray) (w w' : world)
    (k : ndarray -> ndarray) (v : ndarray) :
  (forall x, length (k x) = length x) ->
  bind (scope_indices e)
       (fun idx => bind (lift (take_indices value idx)) (fun x => ret (k x))) w
  = (Ok v, w') ->
  length v = length (scope_of e w).
Proof.
  intros Hk H. rewrite (bind_run _ _ w w _ (scope_indices_run e w)) in H.
  bind_inv_same H. unfold lift in Hstep. injection Hstep as Hstep.
  unfold ret in H. injection H as <- _.
  rewrite Hk. apply take_indices_spec in Hstep as [Hl _]. exact Hl.
Qed.

(** X16.  Whenever [washburn], [purcell] or [cuboid] returns, the array has
    one entry per index of the physics: its throats when the diameter key
    starts with 'throat', its pores otherwise. *)
Theorem sliced_models_length (R : float) (st ca d : string) (w w' : world)
    (v : ndarray) :
  washburn st ca d w = (Ok v, w') \/
  purcell R st ca d w = (Ok v, w') \/
  cuboid st ca d w = (Ok v, w') ->
  length v = length (scope_of (split_head d) w).
Proof.
  intros [H|[H|H]].
  - unfold washburn in H. bind_inv H. destruct a as [[e vs] vt].
    apply get_key_props_entity in Hstep as [-> ->].
    do 6 bind_inv_same H.
    eapply (slice_tail_length _ _ _ _ clamp_inf); [apply length_clamp_inf | exact H].
  - unfold purcell in H. bind_inv H. destruct a as [[e vs] vt].
    apply get_key_props_entity in Hstep as [-> ->].
    do 11 bind_inv_same H.
    rewrite (bind_run _ _ w w _ (scope_indices_run _ w)) in H.
    unfold lift in H. injection H as H _.
    apply take_indices_spec in H as [Hl _]. exact Hl.
  - unfold cuboid in H. bind_inv H. destruct a as [[e vs] vt].
    apply get_key_props_entity in Hstep as [-> ->].
    bind_inv H. rewrite <- (imul_scope _ _ _ _ _ (split_head d) Hstep).
    do 6 bind_inv_same H.
    eapply (slice_tail_length _ _ _ _ clamp_inf); [apply length_clamp_inf | exact H].
Qed.

Lemma sliced_models_length_witness :
  let w := one_throat (Num 1) (Num 120) (Num 2) in
  exists v,
    washburn "throat.surface_tension" "throat.contact_angle" "throat.diameter" w
    = (Ok v, w) /\
    length v = 1%nat.
Proof.
  intros w. eexists. split; [apply washburn_one_throat |].
  apply (sliced_models_length (Num 1) "throat.surface_tension"
           "throat.contact_angle" "throat.diameter" w w).
  left. apply washburn_one_throat.
Defined.

(* ===================================================================== *)
(** ** Further properties of Kelvin, the slice and the reduction *)
(* ===================================================================== *)

(** X17.  On arrays with one entry per element [kelvin] returns, for every
    element with finite values and rho R T r <> 0 (R = 8.314), the pressure
    P0 exp(2 M gamma / (rho R T r)), r being the half-diameter after the
    substitution; the result is as long as the diameter array. *)
Theorem kelvin_formula (d t vp mw rho st : string) (w : world)
    (T P0 Mw Rho gamma diam r : ndarray) :
  phase_props (phase w) !! t = Some T ->
  phase_props (phase w) !! vp = Some P0 ->
  phase_props (phase w) !! mw = Some Mw ->
  phase_props (phase w) !! rho = Some Rho ->
  phase_props (phase w) !! st = Some gamma ->
  net_props (network w) !! d = Some diam ->
  _handle_zeros ((fun x => fdiv x (Num 2)) <$> diam) "max" None = Ok r ->
  length T = length diam -> length P0 = length diam ->
  length Mw = length diam -> length Rho = length diam ->
  length gamma = length diam ->
  exists v,
    kelvin d t vp mw rho st w = (Ok v, w) /\
    length v = length diam /\
    forall (i : nat) (Ti pi mi rhoi gi ri : R),
      T !! i = Some (Num Ti) -> P0 !! i = Some (Num pi) ->
      Mw !! i = Some (Num mi) -> Rho !! i = Some (Num rhoi) ->
      gamma !! i = Some (Num gi) -> r !! i = Some (Num ri) ->
      rhoi * (8314 / 1000) * Ti * ri <> 0 ->
      v !! i = Some (Num (pi * exp (mi * 2 * gi
                                    / (rhoi * (8314 / 1000) * Ti * ri)))).
Proof.
  intros HT HP HM HR HG HD Hr HlT HlP HlM HlR HlG.
  pose proof (handle_zeros_length _ _ _ _ Hr) as Hlr. rewrite length_fmap in Hlr.
  unfold kelvin, bind, phase_getitem, network_getitem, getitem, lift, ret.
  rewrite HT, HP, HM, HR, HG, HD, Hr.
  rewrite broadcast_same_length by solve_lengths.
  rewrite broadcast_same_length by solve_lengths.
  rewrite broadcast_same_length by solve_lengths.
  rewrite broadcast_same_length by solve_lengths.
  rewrite broadcast_same_length by solve_lengths.
  eexists. split; [reflexivity |]. split; [solve_lengths |].
  intros i Ti pi mi rhoi gi ri HTi HPi HMi HRi HGi Hri Hden.
  repeat (rewrite lookup_zip_with || rewrite list_lookup_fmap).
  rewrite HTi, HPi, HMi, HRi, HGi, Hri. simpl.
  destruct (decide _) as [Heq|_]; [contradiction | reflexivity].
Qed.

Lemma kelvin_formula_witness :
  exists v,
    kelvin "pore.diameter" "pore.temperature" "pore.vapor_pressure"
           "pore.molecular_weight" "pore.density" "pore.surface_tension"
           kelvin_world = (Ok v, kelvin_world) /\
    v !! 0%nat
    = Some (Num (3000 * exp (18 / 1000 * 2 * (72 / 1000)
                             / (1000 * (8314 / 1000) * 300 * (2 / 2))))).
Proof.
  destruct (kelvin_formula "pore.diameter" "pore.temperature" "pore.vapor_pressure"
              "pore.molecular_weight" "pore.density" "pore.surface_tension"
              kelvin_world
              [Num 300; Num 300] [Num 3000; Num 3000]
              [Num (18 / 1000); Num (18 / 1000)] [Num 1000; Num 1000]
              [Num (72 / 1000); Num (72 / 1000)] [Num 2; Num 2]
              [Num (2 / 2); Num (2 / 2)])
    as (v & Hrun & _ & Hv); try reflexivity.
  - change ((fun x => fdiv x (Num 2)) <$> [Num 2; Num 2])
      with [fdiv (Num 2) (Num 2); fdiv (Num 2) (Num 2)].
    rewrite half_num. apply handle_zeros_without_zero; [discriminate |].
    repeat constructor; apply feqb_num_ne; lra.
  - exists v. split; [exact Hrun |].
    apply Hv; try reflexivity. lra.
Defined.

Lemma take_indices_out_of_range (a : ndarray) (idx : list nat) :
  Exists (fun i => (length a <= i)%nat) idx -> take_indices a idx = Raise IndexError.
Proof.
  induction idx as [|i idx IH]; intros H; [inversion H |].
  simpl. destruct (a !! i) as [x|] eqn:Hx; [|reflexivity].
  apply Exists_cons in H as [H|H].
  - apply lookup_lt_Some in Hx. lia.
  - rewrite (IH H). reflexivity.
Qed.

(** X18.  An index of the physics that lies beyond the computed array makes
    [washburn] raise [IndexError]; the stored arrays are untouched. *)
Theorem washburn_scope_out_of_range (st ca d : string) (w : world)
    (sigma theta diam r : ndarray) :
  resolved st d w = Ok sigma -> resolved ca d w = Ok theta ->
  net_props (network w) !! d = Some diam ->
  _handle_zeros ((fun x => fdiv x (Num 2)) <$> diam) "max" None = Ok r ->
  length sigma = length r -> length theta = length r ->
  Exists (fun i => (length r <= i)%nat) (scope_of (split_head d) w) ->
  washburn st ca d w = (Raise IndexError, w).
Proof.
  intros Hs Ht Hd Hr Hls Hlt Hex.
  rewrite (washburn_run st ca d w sigma theta diam r) by assumption.
  rewrite take_indices_out_of_range; [reflexivity |].
  eapply Exists_impl; [exact Hex |]. intros i Hi. cbv beta in *.
  repeat (rewrite length_zip_with || rewrite length_fmap). lia.
Qed.

Lemma washburn_scope_out_of_range_witness :
  washburn "throat.surface_tension" "throat.contact_angle" "throat.diameter"
           scope_beyond_network
  = (Raise IndexError, scope_beyond_network).
Proof.
  apply (washburn_scope_out_of_range "throat.surface_tension"
           "throat.contact_angle" "throat.diameter" scope_beyond_network
           [Num 1] [Num 120] [Num 2] [fdiv (Num 2) (Num 2)]).
  - reflexivity.
  - reflexivity.
  - reflexivity.
  - apply (handle_zeros_singleton (fdiv (Num 2) (Num 2))).
  - reflexivity.
  - reflexivity.
  - apply Exists_cons_tl, Exists_cons_hd. simpl. lia.
Defined.

(** X19.  With operator 'min' or 'max', a pore without incident throats
    makes [from_throat] raise [ValueError] (the minimum or maximum of an
    empty selection), whatever the other pores are. *)
Theorem from_throat_isolated_pore_raises (cp operator : string) (w : world)
    (pc : ndarray) (i0 : nat) :
  phys_props (physics w) !! cp = Some pc ->
  length pc = Nt (network w) ->
  (i0 < Np (network w))%nat ->
  find_neighbor_throats (network w) i0 = [] ->
  operator = "min"%string \/ operator = "max"%string ->
  from_throat cp operator w = (Raise ValueError, w).
Proof.
  intros Hpc Hlen Hi0 Hiso Hop.
  unfold from_throat. unfold bind at 1, network_Np.
  destruct Hop as [-> | ->].
  - apply (from_throat_loop_isolated cp _ array_min w pc i0); try assumption;
      try reflexivity; [|lia].
    intros [|x sel] Hne; [congruence | simpl; eauto].
  - apply (from_throat_loop_isolated cp _ array_max w pc i0); try assumption;
      try reflexivity; [|lia].
    intros [|x sel] Hne; [congruence | simpl; eauto].
Qed.

Lemma from_throat_isolated_pore_raises_witness :
  from_throat "throat.capillary_pressure" "min" lonely_pores
  = (Raise ValueError, lonely_pores).
Proof.
  apply (from_throat_isolated_pore_raises "throat.capillary_pressure" "min"
           lonely_pores [] 0%nat).
  - reflexivity.
  - reflexivity.
  - simpl. lia.
  - reflexivity.
  - left. reflexivity.
Defined.




(* ===================================================================== *)
(** ** Further properties of the static pressure *)
(* ===================================================================== *)

(** X21.  When no pore is occupied there is no cluster to visit:
    [static_pressure] returns Np zeros, whatever the gravity vector is. *)
Theorem static_pressure_unoccupied (pd po : string) (g : vec3) (w : world)
    (rho occ : ndarray) :
  phase_props (phase w) !! pd = Some rho ->
  phase_props (phase w) !! po = Some occ ->
  length occ = Np (network w) ->
  Forall (fun x => truthy x = false) occ ->
  static_pressure pd po g w = (Ok (replicate (Np (network w)) (Num 0)), w).
Proof.
  intros Hrho Hocc Hlo Hall.
  destruct (find_clusters2_sentinel (network w) (truthy <$> occ))
    as (clusters & Hcl & Hsent).
  { rewrite length_fmap. exact Hlo. }
  assert (Hnone : List.filter (fun c => negb (c =? -1)%Z) (unique clusters) = []).
  { destruct (List.filter _ _) as [|c L] eqn:HL; [reflexivity |].
    assert (Hc : c ∈ c :: L) by left.
    rewrite <- HL in Hc. apply elem_of_cluster_nums in Hc as [Hc Hne].
    apply list_elem_of_lookup in Hc as [p Hp].
    destruct (Forall2_lookup_l _ _ _ _ _ Hsent Hp) as (b & Hb & Hcb).
    rewrite list_lookup_fmap in Hb.
    destruct (occ !! p) as [x|] eqn:Hx; [|discriminate].
    simpl in Hb. injection Hb as <-.
    rewrite Forall_forall in Hall.
    specialize (Hall x (list_elem_of_lookup_2 _ _ _ Hx)).
    exfalso. apply Hne, Hcb, Hall. }
  unfold static_pressure, bind, network_Np, phase_getitem, getitem, get_network, lift.
  rewrite Hrho, Hocc, Hcl, Hnone. reflexivity.
Qed.

Lemma static_pressure_unoccupied_witness :
  static_pressure "pore.density" "pore.occupancy" (Num 0, Num 0, Num (-981 / 100))
                  two_pores_unoccupied
  = (Ok [Num 0; Num 0], two_pores_unoccupied).
Proof.
  apply (static_pressure_unoccupied "pore.density" "pore.occupancy" _
           two_pores_unoccupied [Num 1000; Num 1000] [Num 0; Num 0]).
  - reflexivity.
  - reflexivity.
  - reflexivity.
  - repeat constructor; unfold truthy; rewrite feqb_num_eq; reflexivity.
Defined.

(** X22.  The columns of the gravity vector are selected by [g > 0]: when
    no component is positive (gravity pointing down the axes, say) and some
    pore is occupied, [static_pressure] raises [ValueError]. *)
Theorem static_pressure_no_positive_component (pd po : string) (g : vec3)
    (w : world) (rho occ : ndarray) (p : nat) (x : float) :
  phase_props (phase w) !! pd = Some rho ->
  phase_props (phase w) !! po = Some occ ->
  length rho = Np (network w) -> length occ = Np (network w) ->
  length (coords (network w)) = Np (network w) ->
  where_ (fun x => fltb (Num 0) x) (vec3_to_list g) = [] ->
  occ !! p = Some x -> truthy x = true ->
  static_pressure pd po g w = (Raise ValueError, w).
Proof.
  intros Hrho Hocc Hlr Hlo Hlc Hg Hp Hx.
  apply (static_pressure_wrong_columns pd po g w rho occ p x); try assumption.
  rewrite Hg. discriminate.
Qed.

Lemma static_pressure_no_positive_component_witness :
  static_pressure "pore.density" "pore.occupancy" (Num 0, Num 0, Num (-981 / 100))
                  two_pore_cluster
  = (Raise ValueError, two_pore_cluster).
Proof.
  apply (static_pressure_no_positive_component "pore.density" "pore.occupancy" _
           two_pore_cluster [Num 1000; Num 1000] [Num 1; Num 1] 0%nat (Num 1)).
  - reflexivity.
  - reflexivity.
  - reflexivity.
  - reflexivity.
  - reflexivity.
  - unfold where_. simpl. rewrite !bool_decide_eq_false_2 by lra. reflexivity.
  - reflexivity.
  - apply truthy_one.
Defined.

(** X23.  With finite coordinates, a non-negative finite density and exactly
    one positive component of the gravity vector, the static pressure of an
    occupied pore is a non-negative number, and it is zero at a pore that is
    at the top of its cluster. *)
Theorem static_pressure_non_negative (pd po : string) (g : vec3) (k : nat)
    (gk : R) (w : world) (rho occ : ndarray) :
  phase_props (phase w) !! pd = Some rho ->
  phase_props (phase w) !! po = Some occ ->
  length rho = Np (network w) -> length occ = Np (network w) ->
  length (coords (network w)) = Np (network w) ->
  where_ (fun x => fltb (Num 0) x) (vec3_to_list g) = [k] ->
  vcomp k g = Num gk ->
  (forall q, (q < Np (network w))%nat ->
             exists z, vcomp k (row_at (network w) q) = Num z) ->
  exists clusters v,
    find_clusters2 (network w) (truthy <$> occ) = Ok clusters /\
    static_pressure pd po g w = (Ok v, w) /\
    forall (p : nat) (c : Z) (z r : R),
      clusters !! p = Some c -> c <> (-1)%Z ->
      vcomp k (row_at (network w) p) = Num z ->
      rho !! p = Some (Num r) -> 0 <= r ->
      exists P,
        v !! p = Some (Num P) /\ 0 <= P /\
        ((forall q zq, clusters !! q = Some c ->
                       vcomp k (row_at (network w) q) = Num zq -> zq <= z) ->
         P = 0).
Proof.
  intros Hrho Hocc Hlr Hlo Hlc Hg Hgk Hfin.
  destruct (static_pressure_run pd po g k w rho occ)
    as (clusters & v & Hcl & Hsent & Hrun & Hlen & Hv); try assumption.
  exists clusters, v. split; [exact Hcl |]. split; [exact Hrun |].
  intros p c z r Hp Hne Hz Hr Hr0.
  assert (Hin : k ∈ where_ (fun x => fltb (Num 0) x) (vec3_to_list g))
    by (rewrite Hg; left).
  apply elem_of_where in Hin as (x & Hx & Hpos).
  assert (Hk : (k < 3)%nat) by (apply lookup_lt_Some in Hx; exact Hx).
  assert (Hgpos : 0 < gk).
  { rewrite (vec3_lookup k g Hk) in Hx. injection Hx as <-.
    rewrite Hgk in Hpos. simpl in Hpos. apply bool_decide_eq_true_1 in Hpos.
    exact Hpos. }
  assert (Hlcl : length clusters = Np (network w)).
  { rewrite (Forall2_length _ _ _ Hsent), length_fmap. exact Hlo. }
  destruct (pressure_at_hydrostatic (network w) rho g k clusters c p gk z r)
    as (top & (q & Hq & Hqt) & Hb & Hpa); try assumption.
  { intros q Hq. apply Hfin. rewrite <- Hlcl. eapply lookup_lt_Some, Hq. }
  destruct (Hv p c Hp) as [_ Hposv].
  exists (r * gk * (top - z)). split; [rewrite (Hposv Hne), Hpa; reflexivity |].
  pose proof (Hb p z Hp Hz) as Hzt. split.
  { apply Rmult_le_pos; [apply Rmult_le_pos; lra | lra]. }
  intros Htop. specialize (Htop q top Hq Hqt).
  replace top with z by lra. lra.
Qed.

Lemma static_pressure_non_negative_witness :
  exists clusters v,
    find_clusters2 (network two_pore_cluster) (truthy <$> [Num 1; Num 1])
    = Ok clusters /\
    static_pressure "pore.density" "pore.occupancy" g_default two_pore_cluster
    = (Ok v, two_pore_cluster).
Proof.
  destruct (static_pressure_non_negative "pore.density" "pore.occupancy"
              g_default 2 (981 / 100) two_pore_cluster
              [Num 1000; Num 1000] [Num 1; Num 1])
    as (clusters & v & Hcl & Hrun & _).
  - reflexivity.
  - reflexivity.
  - reflexivity.
  - reflexivity.
  - reflexivity.
  - apply where_positive_default.
  - reflexivity.
  - intros [|[|q]] Hq; [eexists; reflexivity | eexists; reflexivity |].
    simpl in Hq. lia.
  - exists clusters, v. split; assumption.
Defined.

Lemma broadcast_mismatch (f : float -> float -> float) (a b : ndarray) :
  length a <> length b -> (2 <= length a)%nat -> (2 <= length b)%nat ->
  broadcast f a b = Raise ValueError.
Proof.
  intros Hne Ha Hb. unfold broadcast.
  destruct (decide _); [contradiction |].
  destruct a as [|x [|x' a]]; simpl in Ha; try lia.
  destruct b as [|y [|y' b]]; simpl in Hb; try lia.
  reflexivity.
Qed.

(** X24.  Arrays of different entities do not combine: when the resolved
    surface tension and contact angle have one length and the radii another,
    both at least 2, [washburn] raises [ValueError] (as with a throat-scoped
    surface tension and a pore diameter). *)
Theorem washburn_shape_mismatch (st ca d : string) (w : world)
    (sigma theta diam r : ndarray) :
  resolved st d w = Ok sigma -> resolved ca d w = Ok theta ->
  net_props (network w) !! d = Some diam ->
  _handle_zeros ((fun x => fdiv x (Num 2)) <$> diam) "max" None = Ok r ->
  length sigma = length theta -> length sigma <> length r ->
  (2 <= length sigma)%nat -> (2 <= length r)%nat ->
  washburn st ca d w = (Raise ValueError, w).
Proof.
  intros Hs Ht Hd Hr Hlt Hne H2s H2r.
  destruct (get_key_props_run d st ca w sigma theta Hs Ht)
    as (vs & vt & Hrun & Hrs & Hrt & _).
  unfold washburn. rewrite (bind_run _ _ w w _ Hrun).
  assert (Hget : network_getitem d w = (Ok diam, w)).
  { unfold network_getitem, getitem. rewrite Hd. reflexivity. }
  rewrite (bind_run _ _ w w _ Hget), Hr, bind_lift_Ok.
  rewrite (bind_run _ _ w w _ Hrs), (bind_run _ _ w w _ Hrt).
  rewrite broadcast_same_length by solve_lengths. rewrite bind_lift_Ok.
  rewrite broadcast_mismatch; [reflexivity | | |];
    repeat (rewrite length_zip_with || rewrite length_fmap); lia.
Qed.

Lemma washburn_shape_mismatch_witness :
  washburn "throat.surface_tension" "throat.contact_angle" "pore.diameter"
           three_pore_chain
  = (Raise ValueError, three_pore_chain).
Proof.
  apply (washburn_shape_mismatch "throat.surface_tension" "throat.contact_angle"
           "pore.diameter" three_pore_chain
           [Num 1; Num 1] [Num 120; Num 120] [Num 2; Num 2; Num 2]
           [Num (2 / 2); Num (2 / 2); Num (2 / 2)]).
  - reflexivity.
  - reflexivity.
  - reflexivity.
  - change ((fun x => fdiv x (Num 2)) <$> [Num 2; Num 2; Num 2])
      with [fdiv (Num 2) (Num 2); fdiv (Num 2) (Num 2); fdiv (Num 2) (Num 2)].
    rewrite half_num. apply handle_zeros_without_zero; [discriminate |].
    repeat constructor; apply feqb_num_ne; lra.
  - reflexivity.
  - simpl. lia.
  - simpl. lia.
  - simpl. lia.
Defined.
